(** * Event-sourced ledger: event store, CQRS command/query models, transfer saga

    A shallow embedding of [event-sourcing.py].  Python integers are [Z],
    the two dictionaries ([EventStore.snapshots], [EntityStore.accounts])
    are finite maps keyed by the account id, the event log is a list in
    append order.  Methods that read or write the shared stores are
    computations in a small state-and-exception monad in which the state
    survives a raised exception, as it does in Python. *)

From Stdlib Require Import ZArith Lia.
From stdpp Require Import gmap strings list.

Local Open Scope Z_scope.

(** ** Exceptions and the monad *)

(** The two exceptions the program can raise on integer inputs:
    [InsufficientBalanceError] (its message is determined by the amount of
    the rejected withdrawal) and Python's [NameError] for a name that is
    bound neither locally nor at module level. *)
Inductive exn : Type :=
| InsufficientBalanceError (amount : Z)
| NameError (name : string).

Inductive outcome (A : Type) : Type :=
| Returned (a : A)
| Raised (e : exn).
Arguments Returned {A} a.
Arguments Raised {A} e.

Definition M (S A : Type) : Type := S -> outcome A * S.

Definition ret {S A} (a : A) : M S A := fun s => (Returned a, s).

Definition bind {S A B} (m : M S A) (k : A -> M S B) : M S B :=
  fun s =>
    match m s with
    | (Returned a, s') => k a s'
    | (Raised e, s') => (Raised e, s')
    end.

Definition raise {S A} (e : exn) : M S A := fun s => (Raised e, s).

Definition gets {S A} (f : S -> A) : M S A := fun s => (Returned (f s), s).

Definition modify {S} (f : S -> S) : M S unit := fun s => (Returned tt, f s).

(** [try: body  except Exception as e: handler e] *)
Definition try_except {S A} (body : M S A) (handler : exn -> M S A) : M S A :=
  fun s =>
    match body s with
    | (Returned a, s') => (Returned a, s')
    | (Raised e, s') => handler e s'
    end.

(** [for x in l: body x] *)
Fixpoint for_each {S B} (l : list B) (body : B -> M S unit) : M S unit :=
  match l with
  | [] => ret tt
  | x :: l' => bind (body x) (fun _ => for_each l' body)
  end.

(** Run a computation over a component [get s] of a larger state. *)
Definition lift {S T A} (get : S -> T) (set : T -> S -> S) (m : M T A) : M S A :=
  fun s => let (r, t') := m (get s) in (r, set t' s).

Declare Scope py_scope.
Delimit Scope py_scope with py.
Notation "'let*' x ':=' m 'in' k" := (bind m (fun x => k))
  (at level 10, x name, m at level 100, k at level 200) : py_scope.
Notation "m '>>' k" := (bind m (fun _ => k))
  (at level 100, k at level 200, right associativity) : py_scope.

(** ** Data model *)

Module Event.
(** [data] is the dictionary [{'id': ..., 'amount': ...}]. *)
Record data_t : Type := mk_data { id : Z; amount : Z }.
Record t : Type := mk { event_type : string; data : data_t; version : Z }.
End Event.

Module Snapshot.
(** The dictionary [{'balance': ..., 'version': ...}] built by
    [QueryModel.save_snapshot]; it has two keys, hence is truthy. *)
Record t : Type := mk { balance : Z; version : Z }.
End Snapshot.

Module AccountEntity.
Record t : Type := mk { account_id : Z; balance : Z; version : Z }.
End AccountEntity.

Module AccountAggregate.
Record t : Type := mk { account_id : Z; balance : Z; version : Z }.

Definition init (account_id : Z) : t := mk account_id 0 0.

Definition apply_event (self : t) (event : Event.t) : t :=
  let balance :=
    if String.eqb (Event.event_type event) "Deposit" then
      balance self + Event.amount (Event.data event)
    else if String.eqb (Event.event_type event) "Withdrawal" then
      balance self - Event.amount (Event.data event)
    else balance self in
  mk (account_id self) balance (Event.version event).

Definition can_withdraw (self : t) (amount : Z) : bool :=
  balance self >=? amount.
End AccountAggregate.

(** A command keeps the account id and the amount it was built with.  Every
    command of the program is built over the event store of the command
    model that runs it, so the store reference is the ambient state. *)
Inductive Command : Type :=
| DepositCommand (account_id : Z) (amount : Z)
| WithdrawalCommand (account_id : Z) (amount : Z).

Definition account_id (command : Command) : Z :=
  match command with
  | DepositCommand a _ | WithdrawalCommand a _ => a
  end.

Definition amount (command : Command) : Z :=
  match command with
  | DepositCommand _ n | WithdrawalCommand _ n => n
  end.

(** The objects wired together in the program: the [EventStore] (its
    [events] and [snapshots]), the [EntityStore] (its [accounts]), the
    [CommandModel]'s [version_counter], and the module-level binding of the
    name [account], which [undo_command] reads.  Nothing in the classes
    assigns that name; only the script section of the module does. *)
Record World : Type := mkWorld {
  events : list Event.t;
  snapshots : gmap Z Snapshot.t;
  accounts : gmap Z AccountEntity.t;
  version_counter : Z;
  global_account : option AccountAggregate.t
}.

Definition set_events (f : list Event.t -> list Event.t) (w : World) : World :=
  mkWorld (f (events w)) (snapshots w) (accounts w) (version_counter w) (global_account w).

Definition set_snapshots (f : gmap Z Snapshot.t -> gmap Z Snapshot.t) (w : World) : World :=
  mkWorld (events w) (f (snapshots w)) (accounts w) (version_counter w) (global_account w).

Definition set_accounts (f : gmap Z AccountEntity.t -> gmap Z AccountEntity.t) (w : World) : World :=
  mkWorld (events w) (snapshots w) (f (accounts w)) (version_counter w) (global_account w).

Definition set_version_counter (f : Z -> Z) (w : World) : World :=
  mkWorld (events w) (snapshots w) (accounts w) (f (version_counter w)) (global_account w).

(** The state right after
    [EventStore()], [EntityStore()], [QueryModel(..)], [CommandModel(..)]. *)
Definition new_world (g : option AccountAggregate.t) : World :=
  mkWorld [] ∅ ∅ 0 g.

Local Open Scope py_scope.

(** ** EventStore *)

Module EventStore.
Definition add_event (event : Event.t) : M World unit :=
  modify (set_events (fun l => l ++ [event])).

Definition selects (aggregate_id after_version : Z) (event : Event.t) : bool :=
  (Event.id (Event.data event) =? aggregate_id) && (Event.version event >? after_version).

Definition get_events (aggregate_id : Z) (after_version : Z) : M World (list Event.t) :=
  gets (fun w => List.filter (selects aggregate_id after_version) (events w)).

Definition save_snapshot (aggregate_id : Z) (snapshot : Snapshot.t) : M World unit :=
  modify (set_snapshots (fun m => <[aggregate_id := snapshot]> m)).

Definition get_snapshot (aggregate_id : Z) : M World (option Snapshot.t) :=
  gets (fun w => snapshots w !! aggregate_id).
End EventStore.

(** ** EntityStore *)

Module EntityStore.
Definition update_entity (account_id balance version : Z) : M World unit :=
  modify (set_accounts (fun m => <[account_id := AccountEntity.mk account_id balance version]> m)).

Definition query_entity (account_id : Z) : M World (option AccountEntity.t) :=
  gets (fun w => accounts w !! account_id).
End EntityStore.

(** ** Commands *)

Definition execute (command : Command) (version : Z) : M World unit :=
  match command with
  | DepositCommand account_id amount =>
      EventStore.add_event (Event.mk "Deposit" (Event.mk_data account_id amount) version)
  | WithdrawalCommand account_id amount =>
      EventStore.add_event (Event.mk "Withdrawal" (Event.mk_data account_id amount) version)
  end.

Definition undo (command : Command) (version : Z) : M World unit :=
  match command with
  | DepositCommand account_id amount =>
      EventStore.add_event (Event.mk "Withdrawal" (Event.mk_data account_id amount) version)
  | WithdrawalCommand account_id amount =>
      EventStore.add_event (Event.mk "Deposit" (Event.mk_data account_id amount) version)
  end.

Definition is_withdrawal (command : Command) : bool :=
  match command with
  | WithdrawalCommand _ _ => true
  | DepositCommand _ _ => false
  end.

(** ** QueryModel *)

Module QueryModel.
Definition rebuild_aggregate (account_id : Z) : M World AccountAggregate.t :=
  let* snapshot := EventStore.get_snapshot account_id in
  let version := match snapshot with Some s => Snapshot.version s | None => 0 end in
  let account := AccountAggregate.init account_id in
  let account :=
    match snapshot with
    | Some s => AccountAggregate.mk (AccountAggregate.account_id account)
                  (Snapshot.balance s) (Snapshot.version s)
    | None => account
    end in
  let* events := EventStore.get_events account_id version in
  ret (fold_left AccountAggregate.apply_event events account).

Definition save_snapshot (account : AccountAggregate.t) : M World unit :=
  let snapshot := Snapshot.mk (AccountAggregate.balance account) (AccountAggregate.version account) in
  EventStore.save_snapshot (AccountAggregate.account_id account) snapshot.
End QueryModel.

(** ** CommandModel *)

Module CommandModel.
Definition execute_command (command : Command) : M World unit :=
  (if is_withdrawal command then
     let* account := QueryModel.rebuild_aggregate (account_id command) in
     if negb (AccountAggregate.can_withdraw account (amount command)) then
       raise (InsufficientBalanceError (amount command))
     else ret tt
   else ret tt) >>
  modify (set_version_counter (fun c => c + 1)) >>
  let* version := gets version_counter in
  execute command version >>
  let* account := QueryModel.rebuild_aggregate (account_id command) in
  let* version := gets version_counter in
  EntityStore.update_entity (account_id command) (AccountAggregate.balance account) version.

(** The body of [undo_command] reads the name [account], which the method
    never binds: the lookup falls through to the module level and raises
    [NameError] when the name is not bound there either. *)
Definition lookup_global_account : M World AccountAggregate.t :=
  fun w =>
    match global_account w with
    | Some a => (Returned a, w)
    | None => (Raised (NameError "account"), w)
    end.

Definition undo_command (command : Command) : M World unit :=
  modify (set_version_counter (fun c => c + 1)) >>
  let* version := gets version_counter in
  undo command version >>
  let* account := lookup_global_account in
  let* version := gets version_counter in
  EntityStore.update_entity (account_id command) (AccountAggregate.balance account) version.
End CommandModel.

(** ** TransferSaga *)

Module TransferSaga.
(** A saga object ([successful_commands]) together with the command model
    it was given. *)
Record t : Type := mk { successful_commands : list Command; command_model : World }.

Definition init (command_model : World) : t := mk [] command_model.

Definition on_command_model {A} (m : M World A) : M t A :=
  lift command_model (fun w s => mk (successful_commands s) w) m.

Definition append_successful (command : Command) : M t unit :=
  modify (fun s => mk (successful_commands s ++ [command]) (command_model s)).

Definition compensate_transfer : M t unit :=
  let* commands := gets successful_commands in
  for_each (rev commands) (fun command =>
    on_command_model (CommandModel.undo_command command)) >>
  modify (fun s => mk [] (command_model s)).

Definition start_transfer (from_account_id to_account_id amount : Z) : M t unit :=
  let withdrawal_command := WithdrawalCommand from_account_id amount in
  let deposit_command := DepositCommand to_account_id amount in
  try_except
    (on_command_model (CommandModel.execute_command withdrawal_command) >>
     append_successful withdrawal_command >>
     on_command_model (CommandModel.execute_command deposit_command) >>
     append_successful deposit_command)
    (fun e => compensate_transfer >> raise e).
End TransferSaga.

(** ** Drivers used to state properties of command sequences *)

(** What a caller does with a batch of commands: submit each one through
    [execute_command] and go on after a rejection, as the script does with
    [try: ... except InsufficientBalanceError]. *)
Fixpoint submit_all (commands : list Command) (w : World) : World :=
  match commands with
  | [] => w
  | command :: rest => submit_all rest (snd (CommandModel.execute_command command w))
  end.

(** The commands of the batch that [execute_command] accepted (returned
    normally on), in order. *)
Fixpoint accepted (commands : list Command) (w : World) : list Command :=
  match commands with
  | [] => []
  | command :: rest =>
      match CommandModel.execute_command command w with
      | (Returned _, w') => command :: accepted rest w'
      | (Raised _, w') => accepted rest w'
      end
  end.

Definition deposited (account : Z) (commands : list Command) : Z :=
  fold_right Z.add 0
    (map (fun c => match c with
                   | DepositCommand a n => if a =? account then n else 0
                   | WithdrawalCommand _ _ => 0
                   end) commands).

Definition withdrawn (account : Z) (commands : list Command) : Z :=
  fold_right Z.add 0
    (map (fun c => match c with
                   | WithdrawalCommand a n => if a =? account then n else 0
                   | DepositCommand _ _ => 0
                   end) commands).

(** The aggregate a call of [rebuild_aggregate] returns, and its balance. *)
Definition rebuilt (w : World) (account : Z) : outcome AccountAggregate.t :=
  fst (QueryModel.rebuild_aggregate account w).

Definition rebuilt_balance (w : World) (account : Z) : option Z :=
  match rebuilt w account with
  | Returned a => Some (AccountAggregate.balance a)
  | Raised _ => None
  end.

(** Rebuilding "from zero": the same log with every snapshot dropped. *)
Definition without_snapshots (w : World) : World := set_snapshots (fun _ => ∅) w.

(** A version is fresh for a store when it is positive and above every
    version the store records, in the log and in the snapshots. *)
Definition fresh_version (w : World) (v : Z) : Prop :=
  0 < v /\
  Forall (fun e => Event.version e < v) (events w) /\
  map_Forall (fun _ s => Snapshot.version s < v) (snapshots w).

(** Versions grow strictly along the log, starting above [v].  A log
    written through one [CommandModel] is increasing from 0. *)
Fixpoint increasing_from (v : Z) (log : list Event.t) : Prop :=
  match log with
  | [] => True
  | e :: log' => v < Event.version e /\ increasing_from (Event.version e) log'
  end.

(** ** The replay function behind [rebuild_aggregate] *)

Definition baseline (w : World) (account : Z) : AccountAggregate.t :=
  match snapshots w !! account with
  | Some s => AccountAggregate.mk account (Snapshot.balance s) (Snapshot.version s)
  | None => AccountAggregate.init account
  end.

Definition replay (w : World) (account : Z) : AccountAggregate.t :=
  fold_left AccountAggregate.apply_event
    (List.filter (EventStore.selects account (AccountAggregate.version (baseline w account)))
       (events w))
    (baseline w account).

(** The signed amount an event contributes to a balance. *)
Definition signed (e : Event.t) : Z :=
  if String.eqb (Event.event_type e) "Deposit" then Event.amount (Event.data e)
  else if String.eqb (Event.event_type e) "Withdrawal" then - Event.amount (Event.data e)
  else 0.

Definition total (l : list Event.t) : Z := fold_right Z.add 0 (map signed l).

(** The event a command appends when executed, and when undone. *)
Definition forward_event (command : Command) (version : Z) : Event.t :=
  match command with
  | DepositCommand a n => Event.mk "Deposit" (Event.mk_data a n) version
  | WithdrawalCommand a n => Event.mk "Withdrawal" (Event.mk_data a n) version
  end.

Definition inverse_event (command : Command) (version : Z) : Event.t :=
  match command with
  | DepositCommand a n => Event.mk "Withdrawal" (Event.mk_data a n) version
  | WithdrawalCommand a n => Event.mk "Deposit" (Event.mk_data a n) version
  end.

(** The store after the counter was bumped and [e] was appended. *)
Definition appended (e : Event.t) (w : World) : World :=
  set_events (fun l => l ++ [e]) (set_version_counter (fun c => c + 1) w).

Definition refreshed (account balance : Z) (w : World) : World :=
  set_accounts
    (fun m => <[account := AccountEntity.mk account balance (version_counter w)]> m) w.

(** The store after [execute_command] accepted [command]. *)
Definition committed (command : Command) (w : World) : World :=
  let w' := appended (forward_event command (version_counter w + 1)) w in
  refreshed (account_id command)
    (AccountAggregate.balance (replay w' (account_id command))) w'.

(** The counter is not behind any snapshot: the next version the command
    model hands out lies above every baseline a replay starts from. *)
Definition dominated (w : World) : Prop :=
  0 <= version_counter w /\
  map_Forall (fun _ s => Snapshot.version s <= version_counter w) (snapshots w).

(** Replay of a bare log from the zero aggregate. *)
Definition replay_from_zero (account : Z) (log : list Event.t) : AccountAggregate.t :=
  fold_left AccountAggregate.apply_event
    (List.filter (EventStore.selects account 0) log) (AccountAggregate.init account).

(** The snapshot in place for an account, if any, agrees with a replay of
    the whole log from zero. *)
Definition snapshot_agrees (w : World) (account : Z) : Prop :=
  rebuilt w account = rebuilt (without_snapshots w) account.

(** [account = query_model.rebuild_aggregate(id); query_model.save_snapshot(account)] *)
Definition checkpoint (account : Z) : M World unit :=
  let* a := QueryModel.rebuild_aggregate account in
  QueryModel.save_snapshot a.

(** The script section of the module: its assignments [account = ...] bind
    the module-level name. *)
Definition assign_account (m : M World AccountAggregate.t) : M World unit :=
  let* a := m in
  modify (fun w => mkWorld (events w) (snapshots w) (accounts w) (version_counter w) (Some a)).

(** Lines 183-216 of the script: deposit 150, withdraw 50, a rejected
    withdrawal of 150, a rebuild, a snapshot, a rebuild, a deposit of 150
    that is undone, a rebuild. *)
Definition script_until_undo : M World unit :=
  CommandModel.execute_command (DepositCommand 1 150) >>
  CommandModel.execute_command (WithdrawalCommand 1 50) >>
  try_except (CommandModel.execute_command (WithdrawalCommand 1 150)) (fun _ => ret tt) >>
  assign_account (QueryModel.rebuild_aggregate 1) >>
  (let* account := CommandModel.lookup_global_account in QueryModel.save_snapshot account) >>
  assign_account (QueryModel.rebuild_aggregate 1) >>
  CommandModel.execute_command (DepositCommand 1 150) >>
  CommandModel.undo_command (DepositCommand 1 150) >>
  assign_account (QueryModel.rebuild_aggregate 1).

(** What a client of the command and query models can do to the stores. *)
Inductive operation : Type :=
| Execute (command : Command)
| Undo (command : Command)
| Checkpoint (account : Z).

Definition perform (o : operation) (w : World) : World :=
  match o with
  | Execute command => snd (CommandModel.execute_command command w)
  | Undo command => snd (CommandModel.undo_command command w)
  | Checkpoint account => snd (checkpoint account w)
  end.

(** The stores as one command model and its clients leave them: versions
    in the log are positive, strictly increasing and not above the counter,
    no snapshot is ahead of the counter, and every snapshot agrees with a
    replay from zero. *)
Definition well_formed (w : World) : Prop :=
  increasing_from 0 (events w) /\
  Forall (fun e => Event.version e <= version_counter w) (events w) /\
  dominated w /\
  forall account, replay w account = replay_from_zero account (events w).

(** The stores after a client went through a list of operations. *)
Definition perform_all (operations : list operation) (w : World) : World :=
  fold_left (fun w o => perform o w) operations w.

(** The change a command makes to the balance of [account] when its event
    is folded: a deposit adds its amount, a withdrawal subtracts it. *)
Definition effect (account : Z) (command : Command) : Z :=
  if account_id command =? account
  then (if is_withdrawal command then - amount command else amount command)
  else 0.

(** Every entity of the read model is filed under its own account id and
    carries the version of an event logged for that account. *)
Definition entities_backed (w : World) : Prop :=
  forall account entity,
    accounts w !! account = Some entity ->
    AccountEntity.account_id entity = account /\
    AccountEntity.version entity <= version_counter w /\
    Exists (fun e => Event.id (Event.data e) = account /\
                     Event.version e = AccountEntity.version entity) (events w).

(** * Properties *)

Lemma rebuild_aggregate_eq w account :
  QueryModel.rebuild_aggregate account w = (Returned (replay w account), w).
Proof.
  unfold QueryModel.rebuild_aggregate, replay, baseline, bind, EventStore.get_snapshot,
    EventStore.get_events, gets, ret.
  destruct (snapshots w !! account); reflexivity.
Qed.

Lemma rebuilt_balance_eq w account :
  rebuilt_balance w account = Some (AccountAggregate.balance (replay w account)).
Proof. unfold rebuilt_balance, rebuilt. now rewrite rebuild_aggregate_eq. Qed.

Lemma apply_event_balance a e :
  AccountAggregate.balance (AccountAggregate.apply_event a e) = AccountAggregate.balance a + signed e.
Proof.
  unfold AccountAggregate.apply_event, signed; simpl.
  destruct (String.eqb _ "Deposit"); [lia|].
  destruct (String.eqb _ "Withdrawal"); lia.
Qed.

Lemma fold_apply_balance l a :
  AccountAggregate.balance (fold_left AccountAggregate.apply_event l a)
  = AccountAggregate.balance a + total l.
Proof.
  revert a; induction l as [|e l IH]; intros a; unfold total in *; simpl.
  - lia.
  - rewrite IH, apply_event_balance. lia.
Qed.

Lemma fold_apply_account_id l a :
  AccountAggregate.account_id (fold_left AccountAggregate.apply_event l a)
  = AccountAggregate.account_id a.
Proof. revert a; induction l as [|e l IH]; intros a; simpl; [easy|now rewrite IH]. Qed.

Lemma total_app l1 l2 : total (l1 ++ l2) = total l1 + total l2.
Proof.
  unfold total. induction l1 as [|e l1 IH]; simpl; [lia|].
  rewrite IH. lia.
Qed.

Lemma selects_spec account v e :
  EventStore.selects account v e = true <->
  Event.id (Event.data e) = account /\ v < Event.version e.
Proof.
  unfold EventStore.selects.
  rewrite andb_true_iff, Z.eqb_eq, Z.gtb_ltb, Z.ltb_lt. tauto.
Qed.

(** Appending to the log an event the replay selects folds it last. *)
Lemma replay_append_selected w account e :
  EventStore.selects account (AccountAggregate.version (baseline w account)) e = true ->
  replay (set_events (fun l => l ++ [e]) w) account
  = AccountAggregate.apply_event (replay w account) e.
Proof.
  intros Hsel. unfold replay, baseline; simpl.
  fold (baseline w account).
  rewrite List.filter_app, fold_left_app; simpl.
  now rewrite Hsel.
Qed.

Lemma replay_append_skipped w account e :
  EventStore.selects account (AccountAggregate.version (baseline w account)) e = false ->
  replay (set_events (fun l => l ++ [e]) w) account = replay w account.
Proof.
  intros Hsel. unfold replay, baseline; simpl.
  fold (baseline w account).
  rewrite List.filter_app, fold_left_app; simpl.
  now rewrite Hsel.
Qed.

Lemma replay_append_other w account e :
  Event.id (Event.data e) <> account ->
  replay (set_events (fun l => l ++ [e]) w) account = replay w account.
Proof.
  intros Hne. apply replay_append_skipped.
  destruct (EventStore.selects _ _ e) eqn:E; [|easy].
  apply selects_spec in E. tauto.
Qed.

(** The replay reads the log and the snapshots only. *)
Lemma replay_ext w w' account :
  events w' = events w -> snapshots w' = snapshots w ->
  replay w' account = replay w account.
Proof. intros He Hs. unfold replay, baseline. now rewrite He, Hs. Qed.

(** ** What [execute_command] and [undo_command] compute *)

Lemma execute_eq command v w :
  execute command v w = (Returned tt, set_events (fun l => l ++ [forward_event command v]) w).
Proof. now destruct command. Qed.

Lemma undo_eq command v w :
  undo command v w = (Returned tt, set_events (fun l => l ++ [inverse_event command v]) w).
Proof. now destruct command. Qed.

Lemma execute_command_deposit a n w :
  CommandModel.execute_command (DepositCommand a n) w
  = (Returned tt, committed (DepositCommand a n) w).
Proof.
  unfold CommandModel.execute_command, bind; cbn -[QueryModel.rebuild_aggregate].
  now rewrite rebuild_aggregate_eq.
Qed.

Lemma execute_command_withdrawal a n w :
  CommandModel.execute_command (WithdrawalCommand a n) w
  = if AccountAggregate.balance (replay w a) >=? n
    then (Returned tt, committed (WithdrawalCommand a n) w)
    else (Raised (InsufficientBalanceError n), w).
Proof.
  unfold CommandModel.execute_command, bind; cbn -[QueryModel.rebuild_aggregate].
  rewrite rebuild_aggregate_eq. unfold AccountAggregate.can_withdraw.
  destruct (_ >=? n); cbn -[QueryModel.rebuild_aggregate]; [|reflexivity].
  now rewrite rebuild_aggregate_eq.
Qed.

Lemma undo_command_eq command w :
  CommandModel.undo_command command w
  = let w' := appended (inverse_event command (version_counter w + 1)) w in
    match global_account w with
    | Some a => (Returned tt, refreshed (account_id command) (AccountAggregate.balance a) w')
    | None => (Raised (NameError "account"), w')
    end.
Proof.
  unfold CommandModel.undo_command, bind, CommandModel.lookup_global_account; simpl.
  rewrite undo_eq; simpl.
  destruct (global_account w); reflexivity.
Qed.

(** A deposit is never rejected. *)
Lemma execute_command_deposit_returns a n w :
  fst (CommandModel.execute_command (DepositCommand a n) w) = Returned tt.
Proof. now rewrite execute_command_deposit. Qed.

(** [execute_command] raises nothing but [InsufficientBalanceError], and
    leaves the store as it was when it does. *)
Lemma execute_command_cases command w :
  CommandModel.execute_command command w = (Returned tt, committed command w) \/
  CommandModel.execute_command command w = (Raised (InsufficientBalanceError (amount command)), w).
Proof.
  destruct command as [a n|a n].
  - left. apply execute_command_deposit.
  - rewrite execute_command_withdrawal. destruct (_ >=? n); auto.
Qed.

(** ** Replay is a read *)

(** C7. [rebuild_aggregate] always returns, leaves the log, the snapshots,
    the entity store and the counter as they were, returns the same
    aggregate (balance and version included) when called a second time
    right away, and its result depends on nothing but the log and the
    snapshots. *)
Theorem rebuild_aggregate_pure_deterministic (account : Z) (w : World) :
  exists a,
    QueryModel.rebuild_aggregate account w = (Returned a, w) /\
    (let* a1 := QueryModel.rebuild_aggregate account in
     let* a2 := QueryModel.rebuild_aggregate account in
     ret (a1, a2)) w = (Returned (a, a), w) /\
    forall w', events w' = events w -> snapshots w' = snapshots w ->
      QueryModel.rebuild_aggregate account w' = (Returned a, w').
Proof.
  exists (replay w account). split; [|split].
  - apply rebuild_aggregate_eq.
  - unfold bind. now rewrite !rebuild_aggregate_eq.
  - intros w' He Hs. rewrite rebuild_aggregate_eq.
    now rewrite (replay_ext w w').
Qed.

(** ** Rejected withdrawals *)

(** C4. A withdrawal whose account rebuilds to a balance below the amount
    makes [execute_command] raise [InsufficientBalanceError] and hand back
    the very same state: counter, log, snapshots and entity store. *)
Theorem execute_command_insufficient_balance_unchanged
    (a n : Z) (w : World) (account : AccountAggregate.t) :
  rebuilt w a = Returned account ->
  AccountAggregate.balance account < n ->
  CommandModel.execute_command (WithdrawalCommand a n) w
  = (Raised (InsufficientBalanceError n), w).
Proof.
  unfold rebuilt. rewrite rebuild_aggregate_eq; simpl.
  intros [= <-] Hlt. rewrite execute_command_withdrawal.
  destruct (_ >=? n) eqn:E; [|reflexivity].
  apply Z.geb_le in E. lia.
Qed.

Lemma execute_command_insufficient_balance_unchanged_witness :
  let w := snd (CommandModel.execute_command (DepositCommand 1 100) (new_world None)) in
  rebuilt w 1 = Returned (AccountAggregate.mk 1 100 1) /\
  100 < 150 /\
  CommandModel.execute_command (WithdrawalCommand 1 150) w
  = (Raised (InsufficientBalanceError 150), w).
Proof.
  intros w. split; [reflexivity|]. split; [lia|].
  apply (execute_command_insufficient_balance_unchanged 1 150 w (AccountAggregate.mk 1 100 1));
    [reflexivity | simpl; lia].
Defined.

(** C9. [execute_command] raises exactly when the command is a withdrawal
    whose account rebuilds to less than the amount, and then it is
    [InsufficientBalanceError]; amounts are not validated: a deposit of any
    amount, zero and negative ones included, is accepted and its event
    appended under the next version, and a negative deposit takes the
    rebuilt balance of a new account below zero. *)
Theorem execute_command_rejects_only_overdrafts :
  (forall command w e,
     fst (CommandModel.execute_command command w) = Raised e <->
     e = InsufficientBalanceError (amount command) /\
     is_withdrawal command = true /\
     exists b, rebuilt_balance w (account_id command) = Some b /\ b < amount command) /\
  (forall a n w,
     exists w',
       CommandModel.execute_command (DepositCommand a n) w = (Returned tt, w') /\
       events w' = events w ++ [Event.mk "Deposit" (Event.mk_data a n) (version_counter w + 1)]) /\
  (forall a n g,
     n < 0 ->
     rebuilt_balance (new_world g) a = Some 0 /\
     rebuilt_balance (snd (CommandModel.execute_command (DepositCommand a n) (new_world g))) a
     = Some n).
Proof.
  split; [|split].
  - intros command w e. rewrite rebuilt_balance_eq.
    destruct command as [a n|a n]; cbn [amount account_id is_withdrawal].
    + rewrite execute_command_deposit; simpl. split; [discriminate|].
      intros (_ & ? & _); discriminate.
    + rewrite execute_command_withdrawal.
      destruct (_ >=? n) eqn:E; simpl.
      * apply Z.geb_le in E. split; [discriminate|].
        intros (_ & _ & b & [= <-] & Hb). lia.
      * split.
        -- intros [= <-]. repeat split. eexists; split; [reflexivity|].
           destruct (Z.geb_spec (AccountAggregate.balance (replay w a)) n);
             [discriminate|lia].
        -- now intros (-> & _).
  - intros a n w. rewrite execute_command_deposit. eexists; split; reflexivity.
  - intros a n g Hn. rewrite execute_command_deposit, !rebuilt_balance_eq.
    split; [reflexivity|].
    unfold committed, refreshed, appended, replay, baseline; simpl.
    rewrite lookup_empty; simpl.
    unfold EventStore.selects; simpl. rewrite Z.eqb_refl; simpl. reflexivity.
Qed.

(** ** Frame *)

Lemma replay_appended_other e w account :
  Event.id (Event.data e) <> account ->
  replay (appended e w) account = replay w account.
Proof.
  intros Hne. rewrite <- (replay_append_other w account e Hne).
  now apply replay_ext.
Qed.

Lemma replay_refreshed a b w account :
  replay (refreshed a b w) account = replay w account.
Proof. now apply replay_ext. Qed.

Lemma forward_event_id command v :
  Event.id (Event.data (forward_event command v)) = account_id command.
Proof. now destruct command. Qed.

Lemma inverse_event_id command v :
  Event.id (Event.data (inverse_event command v)) = account_id command.
Proof. now destruct command. Qed.

Lemma forward_event_version command v : Event.version (forward_event command v) = v.
Proof. now destruct command. Qed.

Lemma inverse_event_version command v : Event.version (inverse_event command v) = v.
Proof. now destruct command. Qed.

(** C10. A command on account [A], executed or undone, whatever the
    outcome, leaves what [rebuild_aggregate] returns for another account
    [B], the snapshot kept for [B] and the entity stored for [B] as they
    were. *)
Theorem command_on_other_account_frame (A B : Z) (command : Command) (w : World) :
  A <> B ->
  account_id command = A ->
  (let w' := snd (CommandModel.execute_command command w) in
   rebuilt w' B = rebuilt w B /\
   snapshots w' !! B = snapshots w !! B /\
   accounts w' !! B = accounts w !! B) /\
  (let w' := snd (CommandModel.undo_command command w) in
   rebuilt w' B = rebuilt w B /\
   snapshots w' !! B = snapshots w !! B /\
   accounts w' !! B = accounts w !! B).
Proof.
  intros HAB HA. unfold rebuilt. split.
  - destruct (execute_command_cases command w) as [-> | ->]; cbn [snd]; [|easy].
    rewrite !rebuild_aggregate_eq; cbn [fst].
    unfold committed. rewrite replay_refreshed, replay_appended_other
      by (rewrite forward_event_id; congruence).
    repeat split. rewrite HA. now apply lookup_insert_ne.
  - rewrite undo_command_eq; cbv zeta.
    destruct (global_account w); cbn [snd]; rewrite !rebuild_aggregate_eq; cbn [fst].
    + rewrite replay_refreshed, replay_appended_other
        by (rewrite inverse_event_id; congruence).
      repeat split. rewrite HA. now apply lookup_insert_ne.
    + rewrite replay_appended_other by (rewrite inverse_event_id; congruence).
      easy.
Qed.

Lemma command_on_other_account_frame_witness :
  let w := snd (CommandModel.execute_command (DepositCommand 2 50) (new_world None)) in
  let command := WithdrawalCommand 1 0 in
  1 <> 2 /\
  account_id command = 1 /\
  (let w' := snd (CommandModel.execute_command command w) in
   rebuilt w' 2 = rebuilt w 2 /\
   snapshots w' !! 2 = snapshots w !! 2 /\
   accounts w' !! 2 = accounts w !! 2) /\
  (let w' := snd (CommandModel.undo_command command w) in
   rebuilt w' 2 = rebuilt w 2 /\
   snapshots w' !! 2 = snapshots w !! 2 /\
   accounts w' !! 2 = accounts w !! 2).
Proof.
  intros w command. split; [lia|]. split; [reflexivity|].
  apply (command_on_other_account_frame 1 2 command w); [lia | reflexivity].
Defined.

(** ** Execute followed by undo *)

Lemma baseline_set_events f w account :
  baseline (set_events f w) account = baseline w account.
Proof. reflexivity. Qed.

Lemma baseline_version_fresh w v account :
  fresh_version w v -> AccountAggregate.version (baseline w account) < v.
Proof.
  intros (Hpos & _ & Hsnap). unfold baseline.
  destruct (snapshots w !! account) as [s|] eqn:E; simpl; [|lia].
  apply (Hsnap _ _ E).
Qed.

Lemma signed_forward_inverse command v1 v2 :
  signed (forward_event command v1) + signed (inverse_event command v2) = 0.
Proof. destruct command; unfold signed; simpl; lia. Qed.

(** C8. Calling a command's [execute] with a fresh version and then its
    [undo] with a later one brings the rebuilt balance of its account back
    to what it was, for a deposit and for a withdrawal alike, whatever the
    log and the snapshots held before. *)
Theorem execute_then_undo_restores_balance
    (command : Command) (v1 v2 : Z) (w : World) :
  fresh_version w v1 ->
  v1 < v2 ->
  rebuilt_balance (snd ((execute command v1 >> undo command v2) w)) (account_id command)
  = rebuilt_balance w (account_id command).
Proof.
  intros Hfresh Hlt. unfold bind.
  rewrite execute_eq, undo_eq; cbn [snd].
  rewrite !rebuilt_balance_eq. f_equal.
  pose proof (baseline_version_fresh w v1 (account_id command) Hfresh) as Hb.
  rewrite replay_append_selected.
  - rewrite replay_append_selected.
    + rewrite !apply_event_balance.
      pose proof (signed_forward_inverse command v1 v2). lia.
    + apply selects_spec. rewrite forward_event_id, forward_event_version.
      split; [easy|lia].
  - rewrite baseline_set_events. apply selects_spec.
    rewrite inverse_event_id, inverse_event_version. split; [easy|lia].
Qed.

Lemma execute_then_undo_restores_balance_witness :
  let w := snd (CommandModel.execute_command (DepositCommand 1 100) (new_world None)) in
  fresh_version w 2 /\
  2 < 5 /\
  rebuilt_balance (snd ((execute (WithdrawalCommand 1 30) 2 >> undo (WithdrawalCommand 1 30) 5) w)) 1
  = rebuilt_balance w 1.
Proof.
  intros w.
  assert (Hfresh : fresh_version w 2).
  { split; [lia|]. split.
    - repeat constructor.
    - apply map_Forall_empty. }
  split; [exact Hfresh|]. split; [lia|].
  apply (execute_then_undo_restores_balance (WithdrawalCommand 1 30) 2 5 w Hfresh). lia.
Defined.

(** ** Balance of accepted commands *)

Lemma baseline_version_dominated w account :
  dominated w -> AccountAggregate.version (baseline w account) <= version_counter w.
Proof.
  intros (Hpos & Hsnap). unfold baseline.
  destruct (snapshots w !! account) as [s|] eqn:E; simpl; [|lia].
  apply (Hsnap _ _ E).
Qed.

Lemma replay_appended_same e w :
  dominated w ->
  Event.version e = version_counter w + 1 ->
  replay (appended e w) (Event.id (Event.data e))
  = AccountAggregate.apply_event (replay w (Event.id (Event.data e))) e.
Proof.
  intros Hdom Hv.
  rewrite <- (replay_append_selected w).
  - now apply replay_ext.
  - apply selects_spec. split; [easy|].
    pose proof (baseline_version_dominated w (Event.id (Event.data e)) Hdom). lia.
Qed.

Lemma dominated_appended e w : dominated w -> dominated (appended e w).
Proof.
  intros (Hpos & Hsnap). split; simpl; [lia|].
  intros k s Hk. specialize (Hsnap k s Hk). simpl in *. lia.
Qed.

Lemma dominated_refreshed a b w : dominated w -> dominated (refreshed a b w).
Proof. intros H; exact H. Qed.

Lemma dominated_committed command w : dominated w -> dominated (committed command w).
Proof. intros H. unfold committed. now apply dominated_refreshed, dominated_appended. Qed.

Lemma dominated_new_world g : dominated (new_world g).
Proof. split; simpl; [lia|]. apply map_Forall_empty. Qed.

Lemma signed_forward_event command v :
  signed (forward_event command v)
  = if is_withdrawal command then - amount command else amount command.
Proof. destruct command; reflexivity. Qed.

(** The balance an account rebuilds to after a command was accepted. *)
Lemma balance_committed command w account :
  dominated w ->
  AccountAggregate.balance (replay (committed command w) account)
  = AccountAggregate.balance (replay w account)
    + (if account_id command =? account
       then (if is_withdrawal command then - amount command else amount command)
       else 0).
Proof.
  intros Hdom. unfold committed. rewrite replay_refreshed.
  destruct (Z.eqb_spec (account_id command) account) as [<-|Hne].
  - pose proof (replay_appended_same (forward_event command (version_counter w + 1)) w
                  Hdom (forward_event_version _ _)) as H.
    rewrite forward_event_id in H. rewrite H.
    now rewrite apply_event_balance, signed_forward_event.
  - rewrite replay_appended_other by (now rewrite forward_event_id). lia.
Qed.

Lemma dominated_submit_all commands w : dominated w -> dominated (submit_all commands w).
Proof.
  revert w; induction commands as [|c cs IH]; intros w Hdom; simpl; [easy|].
  apply IH. destruct (execute_command_cases c w) as [-> | ->]; simpl;
    auto using dominated_committed.
Qed.

Lemma balance_submit_all commands w account :
  dominated w ->
  AccountAggregate.balance (replay (submit_all commands w) account)
  = AccountAggregate.balance (replay w account)
    + deposited account (accepted commands w) - withdrawn account (accepted commands w).
Proof.
  revert w; induction commands as [|c cs IH]; intros w Hdom.
  - unfold deposited, withdrawn; simpl. lia.
  - cbn [submit_all accepted].
    destruct (execute_command_cases c w) as [E | E]; rewrite E; cbn [snd].
    + rewrite IH by now apply dominated_committed.
      rewrite balance_committed by easy.
      unfold deposited, withdrawn; cbn [map fold_right].
      destruct c as [a n|a n]; cbn [account_id is_withdrawal amount];
        destruct (a =? account); lia.
    + now apply IH.
Qed.

(** C5. Starting from new stores, after any batch of commands submitted
    through [execute_command], each account rebuilds to the sum of its
    accepted deposits minus the sum of its accepted withdrawals; and the
    balance an account rebuilds to right after one of its withdrawals was
    accepted is never negative. *)
Theorem accepted_commands_balance
    (g : option AccountAggregate.t) (commands : list Command) (account : Z) :
  rebuilt_balance (submit_all commands (new_world g)) account
  = Some (deposited account (accepted commands (new_world g))
          - withdrawn account (accepted commands (new_world g))) /\
  (forall before a n after w',
     commands = before ++ WithdrawalCommand a n :: after ->
     CommandModel.execute_command (WithdrawalCommand a n) (submit_all before (new_world g))
     = (Returned tt, w') ->
     exists b, rebuilt_balance w' a = Some b /\ 0 <= b).
Proof.
  split.
  - rewrite rebuilt_balance_eq, balance_submit_all by apply dominated_new_world.
    change (AccountAggregate.balance (replay (new_world g) account)) with 0.
    f_equal; lia.
  - intros before a n after w' _ Hexec.
    pose proof (dominated_submit_all before _ (dominated_new_world g)) as Hdom.
    rewrite execute_command_withdrawal in Hexec.
    destruct (_ >=? n) eqn:E; [|discriminate].
    injection Hexec as <-. apply Z.geb_le in E.
    rewrite rebuilt_balance_eq. eexists; split; [reflexivity|].
    rewrite balance_committed by easy. simpl. rewrite Z.eqb_refl. lia.
Qed.

(** ** Snapshots *)

Lemma increasing_from_weaken v v' log :
  v' <= v -> increasing_from v log -> increasing_from v' log.
Proof. destruct log; simpl; [easy|]. intros ? [? ?]. split; [lia|easy]. Qed.

Lemma increasing_from_above v log :
  increasing_from v log -> Forall (fun e => v < Event.version e) log.
Proof.
  revert v; induction log as [|e log IH]; intros v; simpl; [constructor|].
  intros [Hv Hrest]. constructor; [easy|].
  apply IH. apply (increasing_from_weaken (Event.version e)); [lia|easy].
Qed.

Lemma increasing_from_app v l1 l2 :
  increasing_from v (l1 ++ l2) ->
  increasing_from v l1 /\
  Forall (fun e2 => v < Event.version e2 /\
                    Forall (fun e1 => Event.version e1 < Event.version e2) l1) l2.
Proof.
  revert v; induction l1 as [|e l1 IH]; intros v; simpl.
  - intros H. split; [easy|].
    apply increasing_from_above in H.
    eapply Forall_impl; [exact H|]. simpl. intros; split; [easy|constructor].
  - intros [Hv H]. destruct (IH _ H) as [H1 H2]. split; [easy|].
    eapply Forall_impl; [exact H2|]. simpl.
    intros e2 [He2 Hall]. split; [lia|]. constructor; easy.
Qed.

Lemma filter_none {A} (f : A -> bool) l :
  Forall (fun x => f x = false) l -> List.filter f l = [].
Proof. induction 1 as [|x l Hx _ IH]; simpl; [easy|]. now rewrite Hx. Qed.

Lemma filter_same {A} (f g : A -> bool) l :
  Forall (fun x => f x = g x) l -> List.filter f l = List.filter g l.
Proof. induction 1 as [|x l Hx _ IH]; simpl; [easy|]. now rewrite Hx, IH. Qed.

(** On an increasing log the aggregate replayed from zero carries the
    highest version among the account's events, and that version is zero
    or the version of an event of the log. *)
Lemma replay_from_zero_high_water account log v :
  increasing_from v log ->
  let a := replay_from_zero account log in
  0 <= AccountAggregate.version a /\
  Forall (fun e => Event.id (Event.data e) = account ->
                   Event.version e <= AccountAggregate.version a) log /\
  (AccountAggregate.version a = 0 \/
   Exists (fun e => Event.version e = AccountAggregate.version a) log).
Proof.
  induction log as [|e log IH] using rev_ind; intros Hinc; simpl.
  - split; [lia|]. split; [constructor|now left].
  - apply increasing_from_app in Hinc as [Hlog Hlast].
    apply Forall_cons in Hlast as [[_ Hbelow] _].
    destruct (IH Hlog) as (Hpos & Hhigh & Hwhere). clear IH.
    unfold replay_from_zero in *. rewrite List.filter_app, fold_left_app.
    cbn [List.filter].
    destruct (EventStore.selects account 0 e) eqn:Esel; cbn [fold_left app].
    + apply selects_spec in Esel as [_ Hver].
      split; [simpl; lia|]. split.
      * apply Forall_app. split.
        -- eapply Forall_impl; [exact Hbelow|]. simpl. intros; lia.
        -- constructor; [|constructor]. simpl. lia.
      * right. apply Exists_app. right. now constructor.
    + split; [easy|]. split.
      * apply Forall_app. split; [easy|].
        constructor; [|constructor]. intros Hid.
        destruct (Z.le_gt_cases (Event.version e) 0) as [?|Hgt]; [lia|].
        assert (EventStore.selects account 0 e = true) by (apply selects_spec; easy).
        congruence.
      * destruct Hwhere as [?|Hex]; [now left|].
        right. apply Exists_app. now left.
Qed.

Lemma replay_without_snapshots w account :
  replay (without_snapshots w) account = replay_from_zero account (events w).
Proof. unfold replay, baseline; simpl. now rewrite lookup_empty. Qed.

Lemma replay_from_zero_account_id account log :
  AccountAggregate.account_id (replay_from_zero account log) = account.
Proof. unfold replay_from_zero. now rewrite fold_apply_account_id. Qed.

(** Saving a snapshot of the aggregate replayed from zero keeps replay
    with the snapshot equal to replay from zero, also after further events
    were appended in increasing order. *)
Lemma snapshot_of_zero_replay
    (account : Z) (w : World) (later : list Event.t) (a : AccountAggregate.t) (v : Z) :
  increasing_from v (events w ++ later) ->
  rebuilt (without_snapshots w) account = Returned a ->
  let w' := set_events (fun l => l ++ later) (snd (QueryModel.save_snapshot a w)) in
  rebuilt w' account = rebuilt (without_snapshots w') account.
Proof.
  intros Hinc Hzero w'. unfold rebuilt in *.
  rewrite rebuild_aggregate_eq in Hzero. rewrite !rebuild_aggregate_eq.
  cbn [fst] in *. f_equal. injection Hzero as Hzero.
  rewrite replay_without_snapshots in Hzero. rewrite replay_without_snapshots.
  subst w'; cbn [events set_events set_snapshots QueryModel.save_snapshot
                 EventStore.save_snapshot modify snd].
  apply increasing_from_app in Hinc as [Hlog Hlater].
  destruct (replay_from_zero_high_water account (events w) v Hlog)
    as (Hpos & Hhigh & Hwhere).
  cbv zeta in Hpos, Hhigh, Hwhere. rewrite Hzero in Hpos, Hhigh, Hwhere.
  pose proof (replay_from_zero_account_id account (events w)) as Hid.
  rewrite Hzero in Hid.
  unfold replay, baseline; cbn [events snapshots set_events set_snapshots].
  rewrite Hid, lookup_insert_eq; cbn [AccountAggregate.version].
  replace (AccountAggregate.mk account (Snapshot.balance _) (Snapshot.version _)) with a
    by (destruct a; simpl in *; congruence).
  cbn [Snapshot.version].
  unfold replay_from_zero at 1.
  rewrite !List.filter_app, !fold_left_app.
  fold (replay_from_zero account (events w)). rewrite Hzero.
  rewrite (filter_none _ (events w)); cbn [fold_left].
  - f_equal. apply filter_same.
    eapply Forall_impl; [exact Hlater|]. simpl. intros e [_ Hbelow].
    unfold EventStore.selects. f_equal.
    rewrite !Z.gtb_ltb.
    destruct (Z.ltb_spec 0 (Event.version e)) as [Hgt|Hle].
    + assert (AccountAggregate.version a < Event.version e).
      { destruct Hwhere as [->|Hex]; [easy|].
        apply Exists_exists in Hex as (e1 & Hin & <-).
        rewrite Forall_forall in Hbelow. now apply Hbelow. }
      destruct (Z.ltb_spec (AccountAggregate.version a) (Event.version e)); [easy|lia].
    + destruct (Z.ltb_spec (AccountAggregate.version a) (Event.version e)); [lia|easy].
  - eapply Forall_impl; [exact Hhigh|]. simpl. intros e He.
    destruct (EventStore.selects _ _ e) eqn:Esel; [|easy].
    apply selects_spec in Esel as [Heq Hgt]. specialize (He Heq). lia.
Qed.

(** C6 (amended). On a log whose versions are strictly increasing in
    append order, and with the snapshot in place (if any) agreeing with a
    replay from zero, saving a snapshot of the rebuilt aggregate and then
    rebuilding -- on that log or after further events were appended in
    increasing order -- returns the same aggregate, balance and version, as
    rebuilding the same log from zero without any snapshot. *)
Theorem snapshot_equivalence_increasing_log
    (account : Z) (w : World) (later : list Event.t) (v : Z) :
  increasing_from v (events w ++ later) ->
  snapshot_agrees w account ->
  let w' := set_events (fun l => l ++ later) (snd (checkpoint account w)) in
  rebuilt w' account = rebuilt (without_snapshots w') account.
Proof.
  intros Hinc Hagree. unfold checkpoint, bind.
  rewrite rebuild_aggregate_eq.
  apply (snapshot_of_zero_replay account w later (replay w account) v); [easy|].
  rewrite <- Hagree. unfold rebuilt. now rewrite rebuild_aggregate_eq.
Qed.

Lemma snapshot_equivalence_increasing_log_witness :
  let w := submit_all [DepositCommand 1 150; WithdrawalCommand 1 50] (new_world None) in
  let later := [Event.mk "Deposit" (Event.mk_data 1 5) 3] in
  increasing_from 0 (events w ++ later) /\
  snapshot_agrees w 1 /\
  (let w' := set_events (fun l => l ++ later) (snd (checkpoint 1 w)) in
   rebuilt w' 1 = rebuilt (without_snapshots w') 1 /\
   rebuilt_balance w' 1 = Some 105).
Proof.
  intros w later.
  assert (Hinc : increasing_from 0 (events w ++ later)) by (vm_compute; repeat split).
  assert (Hagree : snapshot_agrees w 1) by reflexivity.
  split; [exact Hinc|]. split; [exact Hagree|]. split; [|reflexivity].
  apply (snapshot_equivalence_increasing_log 1 w later 0 Hinc Hagree).
Defined.

(** C6 as stated fails on a log whose versions do not grow: two deposits
    written with versions 5 and then 3 rebuild to 30 at version 3; with
    that snapshot saved, the replay starts from 30 and folds the version-5
    deposit again. *)
Lemma snapshot_equivalence_fails_out_of_order :
  let w := snd ((execute (DepositCommand 1 10) 5 >> execute (DepositCommand 1 20) 3)
                  (new_world None)) in
  let w' := snd (checkpoint 1 w) in
  rebuilt w 1 = Returned (AccountAggregate.mk 1 30 3) /\
  snapshots w' !! 1 = Some (Snapshot.mk 30 3) /\
  events w' = events w /\
  rebuilt_balance w' 1 = Some 40 /\
  rebuilt_balance (without_snapshots w') 1 = Some 30.
Proof. repeat split. Qed.

(** ** Undo *)

(** C1 (defect in [undo_command]). With the name [account] unbound at
    module level, undoing an executed deposit bumps the counter and appends
    the compensating event, then raises [NameError]: the entity of the
    account is not refreshed and still shows the balance from before the
    undo, while the account rebuilds to zero. *)
Theorem undo_command_raises_NameError :
  let d := DepositCommand 1 150 in
  let w := snd (CommandModel.execute_command d (new_world None)) in
  let r := CommandModel.undo_command d w in
  fst r = Raised (NameError "account") /\
  version_counter (snd r) = version_counter w + 1 /\
  events (snd r) = events w ++ [Event.mk "Withdrawal" (Event.mk_data 1 150) 2] /\
  rebuilt_balance (snd r) 1 = Some 0 /\
  accounts (snd r) !! 1 = Some (AccountEntity.mk 1 150 1).
Proof. repeat split. Qed.

(** With [account] bound at module level (as the script section leaves it),
    [undo_command] returns, but writes the balance of whatever aggregate
    that name holds: here the aggregate of account 2. *)
Lemma undo_command_writes_stale_balance :
  let d := DepositCommand 1 150 in
  let w := snd (CommandModel.execute_command d
                  (new_world (Some (AccountAggregate.mk 2 50 0)))) in
  let r := CommandModel.undo_command d w in
  fst r = Returned tt /\
  rebuilt_balance (snd r) 1 = Some 0 /\
  accounts (snd r) !! 1 = Some (AccountEntity.mk 1 50 2).
Proof. repeat split. Qed.

(** ** Stores written through the command model *)

Lemma increasing_from_snoc v log e :
  increasing_from v log ->
  v < Event.version e ->
  Forall (fun e' => Event.version e' < Event.version e) log ->
  increasing_from v (log ++ [e]).
Proof.
  revert v; induction log as [|e' log IH]; intros v Hinc Hv Hall; simpl in *; [easy|].
  destruct Hinc as [Hv' Hinc]. apply Forall_cons in Hall as [He' Hall].
  split; [easy|]. now apply IH.
Qed.

Lemma replay_from_zero_snoc account log e :
  replay_from_zero account (log ++ [e])
  = if EventStore.selects account 0 e
    then AccountAggregate.apply_event (replay_from_zero account log) e
    else replay_from_zero account log.
Proof.
  unfold replay_from_zero. rewrite List.filter_app, fold_left_app. cbn [List.filter].
  now destruct (EventStore.selects account 0 e).
Qed.

Lemma well_formed_new_world g : well_formed (new_world g).
Proof.
  repeat split; simpl; try constructor; try lia.
  apply map_Forall_empty.
Qed.

Lemma well_formed_appended e w :
  well_formed w ->
  Event.version e = version_counter w + 1 ->
  well_formed (appended e w).
Proof.
  intros (Hinc & Hle & Hdom & Hagree) Hv. split; [|split; [|split]].
  - cbn [appended events set_events set_version_counter].
    apply increasing_from_snoc; [easy|destruct Hdom; lia|].
    eapply Forall_impl; [exact Hle|]. simpl. intros; lia.
  - cbn [appended events set_events set_version_counter version_counter].
    apply Forall_app. split.
    + eapply Forall_impl; [exact Hle|]. simpl. intros; lia.
    + constructor; [lia|constructor].
  - now apply dominated_appended.
  - intros account.
    cbn [appended events set_events set_version_counter].
    rewrite replay_from_zero_snoc.
    destruct (Z.eq_dec (Event.id (Event.data e)) account) as [<-|Hne].
    + rewrite replay_appended_same, Hagree by easy.
      assert (EventStore.selects (Event.id (Event.data e)) 0 e = true) as ->; [|easy].
      apply selects_spec. destruct Hdom. split; [easy|lia].
    + rewrite replay_appended_other, Hagree by easy.
      destruct (EventStore.selects account 0 e) eqn:Esel; [|easy].
      apply selects_spec in Esel. tauto.
Qed.

Lemma well_formed_refreshed a b w : well_formed w -> well_formed (refreshed a b w).
Proof. intros H; exact H. Qed.

Lemma replay_from_zero_version_bound account log c :
  increasing_from 0 log ->
  0 <= c ->
  Forall (fun e => Event.version e <= c) log ->
  AccountAggregate.version (replay_from_zero account log) <= c.
Proof.
  intros Hinc Hc Hle.
  destruct (replay_from_zero_high_water account log 0 Hinc) as (_ & _ & [->|Hex]); [easy|].
  apply Exists_exists in Hex as (e & Hin & <-).
  rewrite Forall_forall in Hle. now apply Hle.
Qed.

Lemma well_formed_checkpoint account w :
  well_formed w -> well_formed (snd (checkpoint account w)).
Proof.
  intros (Hinc & Hle & Hdom & Hagree).
  unfold checkpoint, bind. rewrite rebuild_aggregate_eq.
  cbn [QueryModel.save_snapshot EventStore.save_snapshot modify snd].
  assert (Hid : AccountAggregate.account_id (replay w account) = account)
    by (rewrite Hagree; apply replay_from_zero_account_id).
  rewrite Hid. split; [|split; [|split]]; try easy.
  - destruct Hdom as [Hpos Hsnap]. split; [easy|].
    cbn [snapshots set_snapshots version_counter].
    apply map_Forall_insert_2; [|easy]. cbn [Snapshot.version].
    rewrite Hagree. now apply replay_from_zero_version_bound.
  - intros account'. cbn [events set_snapshots].
    destruct (Z.eq_dec account account') as [<-|Hne].
    + pose proof (snapshot_of_zero_replay account w [] (replay w account) 0) as Hsnap.
      rewrite app_nil_r in Hsnap. unfold rebuilt in Hsnap.
      rewrite !rebuild_aggregate_eq in Hsnap.
      cbn [fst QueryModel.save_snapshot EventStore.save_snapshot modify snd] in Hsnap.
      rewrite Hid in Hsnap.
      specialize (Hsnap Hinc).
      rewrite replay_without_snapshots in Hsnap. specialize (Hsnap (f_equal _ (eq_sym (Hagree account)))).
      cbv zeta in Hsnap. rewrite replay_without_snapshots in Hsnap.
      cbn [events set_events set_snapshots] in Hsnap. rewrite app_nil_r in Hsnap.
      injection Hsnap as Hsnap. rewrite <- Hsnap.
      apply replay_ext; cbn [events snapshots set_events set_snapshots]; [|easy].
      now rewrite app_nil_r.
    + rewrite <- Hagree. unfold replay, baseline.
      cbn [events snapshots set_snapshots]. now rewrite lookup_insert_ne.
Qed.

Lemma well_formed_perform o w : well_formed w -> well_formed (perform o w).
Proof.
  intros Hwf. destruct o as [c|c|account]; cbn [perform].
  - destruct (execute_command_cases c w) as [-> | ->]; cbn [snd]; [|easy].
    unfold committed. apply well_formed_refreshed, well_formed_appended; [easy|].
    apply forward_event_version.
  - rewrite undo_command_eq; cbv zeta.
    destruct (global_account w); cbn [snd].
    + apply well_formed_refreshed, well_formed_appended; [easy|].
      apply inverse_event_version.
    + apply well_formed_appended; [easy|]. apply inverse_event_version.
  - now apply well_formed_checkpoint.
Qed.

(** Whatever sequence of executes, undos and checkpoints newly created
    stores go through, the log stays increasing and every account rebuilds
    to what a replay from zero gives. *)
Lemma well_formed_reachable g operations :
  well_formed (fold_left (fun w o => perform o w) operations (new_world g)).
Proof.
  generalize (well_formed_new_world g). generalize (new_world g).
  induction operations as [|o os IH]; intros w Hwf; simpl; [easy|].
  apply IH. now apply well_formed_perform.
Qed.

Lemma well_formed_snapshot_agrees w account :
  well_formed w -> snapshot_agrees w account.
Proof.
  intros (_ & _ & _ & Hagree). unfold snapshot_agrees, rebuilt.
  rewrite !rebuild_aggregate_eq; cbn [fst].
  now rewrite Hagree, replay_without_snapshots.
Qed.

(** Taking a snapshot changes no aggregate a later rebuild returns. *)
Lemma checkpoint_preserves_rebuilt account account' w :
  well_formed w ->
  rebuilt (snd (checkpoint account w)) account' = rebuilt w account'.
Proof.
  intros Hwf.
  destruct (well_formed_checkpoint account w Hwf) as (_ & _ & _ & Hafter).
  destruct Hwf as (_ & _ & _ & Hbefore).
  unfold rebuilt. rewrite !rebuild_aggregate_eq; cbn [fst].
  rewrite Hafter, Hbefore.
  unfold checkpoint, bind. now rewrite rebuild_aggregate_eq.
Qed.

(** ** The transfer saga *)

Lemma on_command_model_eq {A} (m : M World A) s :
  TransferSaga.on_command_model m s
  = (fst (m (TransferSaga.command_model s)),
     TransferSaga.mk (TransferSaga.successful_commands s) (snd (m (TransferSaga.command_model s)))).
Proof.
  unfold TransferSaga.on_command_model, lift.
  now destruct (m (TransferSaga.command_model s)).
Qed.

(** What [start_transfer] computes: both steps go through when the source
    account covers the amount; otherwise the withdrawal is rejected, nothing
    was written, and the handler runs on the saga as it was. *)
Lemma start_transfer_eq from_id to_id n s :
  TransferSaga.start_transfer from_id to_id n s
  = let w := TransferSaga.command_model s in
    if AccountAggregate.balance (replay w from_id) >=? n
    then (Returned tt,
          TransferSaga.mk
            ((TransferSaga.successful_commands s ++ [WithdrawalCommand from_id n])
               ++ [DepositCommand to_id n])
            (committed (DepositCommand to_id n) (committed (WithdrawalCommand from_id n) w)))
    else (TransferSaga.compensate_transfer >> raise (InsufficientBalanceError n)) s.
Proof.
  destruct s as [cmds w].
  unfold TransferSaga.start_transfer, try_except.
  unfold bind at 1. rewrite on_command_model_eq, execute_command_withdrawal.
  cbn [TransferSaga.command_model TransferSaga.successful_commands].
  destruct (_ >=? n); cbn [fst snd]; [|reflexivity].
  unfold bind at 1. unfold TransferSaga.append_successful at 1, modify.
  unfold bind at 1. rewrite on_command_model_eq, execute_command_deposit.
  reflexivity.
Qed.

Lemma compensate_transfer_nothing w :
  TransferSaga.compensate_transfer (TransferSaga.init w) = (Returned tt, TransferSaga.init w).
Proof. reflexivity. Qed.

(** On a saga that has completed nothing yet, a transfer either commits
    both steps or fails with the withdrawal's [InsufficientBalanceError] and
    leaves saga and stores untouched.  In particular the deposit step never
    fails. *)
Lemma start_transfer_new_saga from_id to_id n w :
  TransferSaga.start_transfer from_id to_id n (TransferSaga.init w)
  = if AccountAggregate.balance (replay w from_id) >=? n
    then (Returned tt,
          TransferSaga.mk [WithdrawalCommand from_id n; DepositCommand to_id n]
            (committed (DepositCommand to_id n) (committed (WithdrawalCommand from_id n) w)))
    else (Raised (InsufficientBalanceError n), TransferSaga.init w).
Proof.
  rewrite start_transfer_eq; cbv zeta; cbn [TransferSaga.command_model TransferSaga.init].
  destruct (_ >=? n); reflexivity.
Qed.

(** Compensation with [account] bound at module level undoes every
    completed command and returns. *)
Lemma undo_all_bound commands s g :
  global_account (TransferSaga.command_model s) = Some g ->
  exists w',
    for_each commands
      (fun command => TransferSaga.on_command_model (CommandModel.undo_command command)) s
    = (Returned tt, TransferSaga.mk (TransferSaga.successful_commands s) w') /\
    global_account w' = Some g.
Proof.
  revert s; induction commands as [|c cs IH]; intros s Hg.
  - exists (TransferSaga.command_model s). now destruct s.
  - cbn [for_each]. unfold bind.
    rewrite on_command_model_eq, undo_command_eq; cbv zeta. rewrite Hg; cbn [fst snd].
    destruct (IH (TransferSaga.mk (TransferSaga.successful_commands s)
                    (refreshed (account_id c) (AccountAggregate.balance g)
                       (appended (inverse_event c (version_counter (TransferSaga.command_model s) + 1))
                          (TransferSaga.command_model s)))))
      as (w' & Hrun & Hg'); [exact Hg|].
    exists w'. now rewrite Hrun.
Qed.

(** With [account] bound at module level, a failing transfer re-raises the
    error of the step that failed. *)
Lemma start_transfer_bound_reraises from_id to_id n s g e :
  global_account (TransferSaga.command_model s) = Some g ->
  fst (TransferSaga.start_transfer from_id to_id n s) = Raised e ->
  e = InsufficientBalanceError n /\
  fst (CommandModel.execute_command (WithdrawalCommand from_id n) (TransferSaga.command_model s))
  = Raised e.
Proof.
  intros Hg. rewrite start_transfer_eq, execute_command_withdrawal; cbv zeta.
  destruct (_ >=? n); [discriminate|].
  unfold TransferSaga.compensate_transfer, bind, gets.
  destruct (undo_all_bound (rev (TransferSaga.successful_commands s)) s g Hg)
    as (w' & -> & _).
  cbn. now intros [= <-].
Qed.

(** With [account] unbound, compensation stops at the first command it
    undoes. *)
Lemma undo_all_unbound c commands s :
  global_account (TransferSaga.command_model s) = None ->
  fst (for_each (c :: commands)
         (fun command => TransferSaga.on_command_model (CommandModel.undo_command command)) s)
  = Raised (NameError "account").
Proof.
  intros Hg. cbn [for_each]. unfold bind.
  rewrite on_command_model_eq, undo_command_eq; cbv zeta. now rewrite Hg.
Qed.

Lemma start_transfer_unbound_masks from_id to_id n s :
  global_account (TransferSaga.command_model s) = None ->
  TransferSaga.successful_commands s <> [] ->
  AccountAggregate.balance (replay (TransferSaga.command_model s) from_id) < n ->
  fst (TransferSaga.start_transfer from_id to_id n s) = Raised (NameError "account").
Proof.
  intros Hg Hne Hlt. rewrite start_transfer_eq; cbv zeta.
  destruct (Z.geb_spec (AccountAggregate.balance
                          (replay (TransferSaga.command_model s) from_id)) n); [lia|].
  unfold TransferSaga.compensate_transfer, bind at 1 2 3, gets.
  destruct (rev (TransferSaga.successful_commands s)) as [|c cs] eqn:E.
  - apply (f_equal (@rev _)) in E. rewrite rev_involutive in E. now destruct Hne.
  - pose proof (undo_all_unbound c cs s Hg) as Hrun.
    destruct (for_each (c :: cs) _ s) as [[|e] s']; simpl in Hrun; [discriminate|].
    now injection Hrun as ->.
Qed.

(** C3 (consequence of the defect in [undo_command]). A saga object that
    has completed one transfer and is asked for a second one the source
    account cannot cover: the withdrawal step raises
    [InsufficientBalanceError], compensation calls [undo_command], and
    [start_transfer] raises [NameError] in place of the original error. *)
Theorem start_transfer_masks_original_error :
  let w := snd (CommandModel.execute_command (DepositCommand 1 100) (new_world None)) in
  let first := TransferSaga.start_transfer 1 2 50 (TransferSaga.init w) in
  let second := TransferSaga.start_transfer 1 2 100 (snd first) in
  fst first = Returned tt /\
  fst (CommandModel.execute_command (WithdrawalCommand 1 100)
         (TransferSaga.command_model (snd first)))
  = Raised (InsufficientBalanceError 100) /\
  fst second = Raised (NameError "account").
Proof. repeat split. Qed.

(** ** The scenario of the script *)

(** Deposit 150, withdraw 50, try to withdraw 150: the third command is
    rejected and the account rebuilds to 100. *)
Example rejected_withdrawal_scenario :
  let commands := [DepositCommand 1 150; WithdrawalCommand 1 50; WithdrawalCommand 1 150] in
  accepted commands (new_world None) = [DepositCommand 1 150; WithdrawalCommand 1 50] /\
  rebuilt (submit_all commands (new_world None)) 1 = Returned (AccountAggregate.mk 1 100 2) /\
  version_counter (submit_all commands (new_world None)) = 2.
Proof. repeat split. Qed.


(** Run as a script, the module binds [account] before it calls
    [undo_command], and the figures come out as its comments expect:
    balance 100 at version 4, and the same in the entity store. *)
Example script_until_undo_balances :
  let r := script_until_undo (new_world None) in
  fst r = Returned tt /\
  global_account (snd r) = Some (AccountAggregate.mk 1 100 4) /\
  accounts (snd r) !! 1 = Some (AccountEntity.mk 1 100 4) /\
  snapshots (snd r) !! 1 = Some (Snapshot.mk 100 2).
Proof. repeat split. Qed.

(** The two transfers of the script, each on a saga of its own: 50 moves
    from account 1 (balance 100) to account 2 (balance 50); a transfer of
    100 is then rejected and changes nothing. *)
Example script_transfers :
  let w := submit_all [DepositCommand 1 100; DepositCommand 2 50] (new_world None) in
  let first := TransferSaga.start_transfer 1 2 50 (TransferSaga.init w) in
  let w1 := TransferSaga.command_model (snd first) in
  let second := TransferSaga.start_transfer 1 2 100 (TransferSaga.init w1) in
  fst first = Returned tt /\
  rebuilt_balance w1 1 = Some 50 /\
  rebuilt_balance w1 2 = Some 100 /\
  second = (Raised (InsufficientBalanceError 100), TransferSaga.init w1).
Proof. repeat split. Qed.

(** * Further properties of the command and query models *)

(** ** The read model after a write *)

Lemma replay_committed command w :
  dominated w ->
  replay (committed command w) (account_id command)
  = AccountAggregate.apply_event (replay w (account_id command))
      (forward_event command (version_counter w + 1)).
Proof.
  intros Hdom. unfold committed. rewrite replay_refreshed.
  pose proof (replay_appended_same (forward_event command (version_counter w + 1)) w
                Hdom (forward_event_version _ _)) as H.
  now rewrite forward_event_id in H.
Qed.

(** X1. After [execute_command] accepted a command, with no snapshot ahead
    of the counter, [query_entity] returns for the command's account an
    entity carrying the account id, the balance and the version of the
    aggregate [rebuild_aggregate] returns, and that version is the counter. *)
Theorem execute_command_entity_matches_aggregate (command : Command) (w w' : World) :
  dominated w ->
  CommandModel.execute_command command w = (Returned tt, w') ->
  exists a,
    rebuilt w' (account_id command) = Returned a /\
    AccountAggregate.version a = version_counter w' /\
    version_counter w' = version_counter w + 1 /\
    EntityStore.query_entity (account_id command) w'
    = (Returned (Some (AccountEntity.mk (AccountAggregate.account_id a)
                         (AccountAggregate.balance a) (AccountAggregate.version a))), w').
Proof.
  intros Hdom Hexec.
  assert (w' = committed command w) as ->.
  { destruct (execute_command_cases command w) as [E|E]; rewrite E in Hexec;
      [now injection Hexec | discriminate]. }
  exists (replay (committed command w) (account_id command)).
  assert (Hid : AccountAggregate.account_id (replay (committed command w) (account_id command))
                = account_id command).
  { unfold replay. rewrite fold_apply_account_id. unfold baseline.
    now destruct (snapshots _ !! _). }
  assert (Hver : AccountAggregate.version (replay (committed command w) (account_id command))
                 = version_counter w + 1).
  { rewrite replay_committed by easy. apply forward_event_version. }
  unfold rebuilt. rewrite rebuild_aggregate_eq; cbn [fst].
  split; [easy|]. split; [exact Hver|]. split; [reflexivity|].
  rewrite Hid, Hver.
  unfold EntityStore.query_entity, gets. do 2 f_equal.
  unfold committed, refreshed. cbn [accounts set_accounts].
  rewrite lookup_insert_eq. reflexivity.
Qed.

Lemma execute_command_entity_matches_aggregate_witness :
  let w := submit_all [DepositCommand 1 150] (new_world None) in
  let w' := snd (CommandModel.execute_command (WithdrawalCommand 1 50) w) in
  dominated w /\
  CommandModel.execute_command (WithdrawalCommand 1 50) w = (Returned tt, w') /\
  exists a,
    rebuilt w' 1 = Returned a /\
    AccountAggregate.version a = version_counter w' /\
    version_counter w' = version_counter w + 1 /\
    EntityStore.query_entity 1 w'
    = (Returned (Some (AccountEntity.mk (AccountAggregate.account_id a)
                         (AccountAggregate.balance a) (AccountAggregate.version a))), w').
Proof.
  intros w w'.
  assert (Hdom : dominated w) by (split; [simpl; lia | apply map_Forall_empty]).
  assert (Hexec : CommandModel.execute_command (WithdrawalCommand 1 50) w = (Returned tt, w'))
    by reflexivity.
  split; [exact Hdom|]. split; [exact Hexec|].
  exact (execute_command_entity_matches_aggregate (WithdrawalCommand 1 50) w w' Hdom Hexec).
Defined.

(** ** Accounts without history *)

(** X2. An account with no snapshot and no logged event of positive version
    rebuilds to the zero aggregate (balance 0, version 0) rather than
    failing; events logged for it under a version of 0 or below are never
    replayed. *)
Theorem rebuild_aggregate_without_history (account : Z) (w : World) :
  snapshots w !! account = None ->
  Forall (fun e => Event.id (Event.data e) = account -> Event.version e <= 0) (events w) ->
  QueryModel.rebuild_aggregate account w = (Returned (AccountAggregate.mk account 0 0), w).
Proof.
  intros Hsnap Hlog. rewrite rebuild_aggregate_eq. f_equal. f_equal.
  unfold replay, baseline. rewrite Hsnap. cbn [AccountAggregate.version AccountAggregate.init].
  rewrite filter_none; [reflexivity|].
  eapply Forall_impl; [exact Hlog|]. simpl. intros e He.
  destruct (EventStore.selects account 0 e) eqn:Esel; [|easy].
  apply selects_spec in Esel as [Hid Hver]. specialize (He Hid). lia.
Qed.

Lemma rebuild_aggregate_without_history_witness :
  let w := snd ((execute (DepositCommand 7 40) 0 >> execute (DepositCommand 1 10) 1)
                  (new_world None)) in
  snapshots w !! 7 = None /\
  Forall (fun e => Event.id (Event.data e) = 7 -> Event.version e <= 0) (events w) /\
  QueryModel.rebuild_aggregate 7 w = (Returned (AccountAggregate.mk 7 0 0), w).
Proof.
  intros w.
  assert (Hsnap : snapshots w !! 7 = None) by reflexivity.
  assert (Hlog : Forall (fun e => Event.id (Event.data e) = 7 -> Event.version e <= 0)
                   (events w)).
  { repeat constructor; simpl; intros; lia. }
  split; [exact Hsnap|]. split; [exact Hlog|].
  exact (rebuild_aggregate_without_history 7 w Hsnap Hlog).
Defined.

(** ** Balances under execute and undo *)

Lemma signed_inverse_event command v :
  signed (inverse_event command v)
  = - (if is_withdrawal command then - amount command else amount command).
Proof. destruct command; unfold signed; simpl; lia. Qed.

Lemma balance_executed command w account :
  dominated w ->
  AccountAggregate.balance (replay (committed command w) account)
  = AccountAggregate.balance (replay w account) + effect account command.
Proof. intros Hdom. unfold effect. now apply balance_committed. Qed.

Lemma dominated_undone command w :
  dominated w -> dominated (snd (CommandModel.undo_command command w)).
Proof.
  intros Hdom. rewrite undo_command_eq; cbv zeta.
  destruct (global_account w); cbn [snd];
    [apply dominated_refreshed|]; now apply dominated_appended.
Qed.

(** Whether it returns or raises, [undo_command] takes the command's effect
    back out of the balance its account rebuilds to. *)
Lemma balance_undone command w account :
  dominated w ->
  AccountAggregate.balance (replay (snd (CommandModel.undo_command command w)) account)
  = AccountAggregate.balance (replay w account) - effect account command.
Proof.
  intros Hdom. rewrite undo_command_eq; cbv zeta.
  assert (Hbal : AccountAggregate.balance
                   (replay (appended (inverse_event command (version_counter w + 1)) w) account)
                 = AccountAggregate.balance (replay w account) - effect account command).
  { unfold effect. destruct (Z.eqb_spec (account_id command) account) as [<-|Hne].
    - pose proof (replay_appended_same (inverse_event command (version_counter w + 1)) w
                    Hdom (inverse_event_version _ _)) as H.
      rewrite inverse_event_id in H. rewrite H.
      rewrite apply_event_balance, signed_inverse_event. lia.
    - rewrite replay_appended_other by (now rewrite inverse_event_id). lia. }
  destruct (global_account w); cbn [snd]; [rewrite replay_refreshed|]; exact Hbal.
Qed.

(** X3. Undoing through the command model a command it has just accepted
    brings the balance its account rebuilds to back to the value from
    before the command, both when [undo_command] returns and when it
    raises. *)
Theorem execute_command_then_undo_command_restores_balance
    (command : Command) (w w' : World) :
  dominated w ->
  CommandModel.execute_command command w = (Returned tt, w') ->
  rebuilt_balance (snd (CommandModel.undo_command command w')) (account_id command)
  = rebuilt_balance w (account_id command).
Proof.
  intros Hdom Hexec.
  assert (w' = committed command w) as ->.
  { destruct (execute_command_cases command w) as [E|E]; rewrite E in Hexec;
      [now injection Hexec | discriminate]. }
  rewrite !rebuilt_balance_eq. f_equal.
  rewrite balance_undone by now apply dominated_committed.
  rewrite balance_executed by easy. lia.
Qed.

Lemma execute_command_then_undo_command_restores_balance_witness :
  let w := submit_all [DepositCommand 1 150] (new_world None) in
  let w' := snd (CommandModel.execute_command (WithdrawalCommand 1 50) w) in
  dominated w /\
  CommandModel.execute_command (WithdrawalCommand 1 50) w = (Returned tt, w') /\
  rebuilt_balance (snd (CommandModel.undo_command (WithdrawalCommand 1 50) w')) 1
  = rebuilt_balance w 1.
Proof.
  intros w w'.
  assert (Hdom : dominated w) by (split; [simpl; lia | apply map_Forall_empty]).
  assert (Hexec : CommandModel.execute_command (WithdrawalCommand 1 50) w = (Returned tt, w'))
    by reflexivity.
  split; [exact Hdom|]. split; [exact Hexec|].
  exact (execute_command_then_undo_command_restores_balance
           (WithdrawalCommand 1 50) w w' Hdom Hexec).
Defined.

Lemma dominated_executed command w :
  dominated w -> dominated (snd (CommandModel.execute_command command w)).
Proof.
  intros Hdom. destruct (execute_command_cases command w) as [-> | ->]; cbn [snd];
    auto using dominated_committed.
Qed.

Lemma balance_new_world g account :
  AccountAggregate.balance (replay (new_world g) account) = 0.
Proof. reflexivity. Qed.

Lemma nonnegative_executed command w :
  dominated w ->
  (is_withdrawal command = false -> 0 <= amount command) ->
  (forall account, 0 <= AccountAggregate.balance (replay w account)) ->
  forall account,
    0 <= AccountAggregate.balance (replay (snd (CommandModel.execute_command command w)) account).
Proof.
  intros Hdom Hamount Hbal account.
  destruct command as [a n|a n].
  - rewrite execute_command_deposit; cbn [snd].
    rewrite balance_executed by easy. unfold effect; cbn [account_id is_withdrawal amount].
    specialize (Hamount eq_refl). specialize (Hbal account). simpl in Hamount.
    destruct (a =? account); lia.
  - rewrite execute_command_withdrawal.
    destruct (Z.geb_spec (AccountAggregate.balance (replay w a)) n) as [Hge|Hlt]; cbn [snd];
      [|apply Hbal].
    rewrite balance_executed by easy. unfold effect; cbn [account_id is_withdrawal amount].
    destruct (Z.eqb_spec a account) as [<-|Hne]; [lia|].
    specialize (Hbal account). lia.
Qed.

(** X4. Starting from new stores, as long as every deposit in a batch has a
    non-negative amount, no account ever rebuilds to a negative balance,
    whatever withdrawals (of any amount, accepted or rejected) the batch
    contains. *)
Theorem nonnegative_deposits_keep_balances_nonnegative
    (g : option AccountAggregate.t) (commands : list Command) (account : Z) :
  Forall (fun c => is_withdrawal c = false -> 0 <= amount c) commands ->
  exists b, rebuilt_balance (submit_all commands (new_world g)) account = Some b /\ 0 <= b.
Proof.
  intros Hall. rewrite rebuilt_balance_eq. eexists; split; [reflexivity|].
  revert account.
  assert (Hgen : forall w, dominated w ->
            (forall account, 0 <= AccountAggregate.balance (replay w account)) ->
            forall account,
              0 <= AccountAggregate.balance (replay (submit_all commands w) account)).
  { induction Hall as [|c cs Hc _ IH]; intros w Hdom Hbal; cbn [submit_all]; [exact Hbal|].
    apply IH; [now apply dominated_executed | now apply nonnegative_executed]. }
  apply Hgen; [apply dominated_new_world|].
  intros account. rewrite balance_new_world. lia.
Qed.

Lemma nonnegative_deposits_keep_balances_nonnegative_witness :
  let commands := [DepositCommand 1 20; WithdrawalCommand 1 (-5); WithdrawalCommand 1 30;
                   WithdrawalCommand 2 1] in
  Forall (fun c => is_withdrawal c = false -> 0 <= amount c) commands /\
  exists b, rebuilt_balance (submit_all commands (new_world None)) 1 = Some b /\ 0 <= b.
Proof.
  intros commands.
  assert (Hall : Forall (fun c => is_withdrawal c = false -> 0 <= amount c) commands).
  { repeat constructor; simpl; intros; (lia || discriminate). }
  split; [exact Hall|].
  exact (nonnegative_deposits_keep_balances_nonnegative None commands 1 Hall).
Defined.



(** ** The log and the version counter *)

Lemma perform_extends o w :
  exists suffix,
    events (perform o w) = events w ++ suffix /\
    version_counter (perform o w) = version_counter w + Z.of_nat (length suffix).
Proof.
  destruct o as [c|c|account]; cbn [perform].
  - destruct (execute_command_cases c w) as [-> | ->]; cbn [snd].
    + exists [forward_event c (version_counter w + 1)]. split; reflexivity.
    + exists []. rewrite app_nil_r. split; [reflexivity|simpl; lia].
  - rewrite undo_command_eq; cbv zeta.
    exists [inverse_event c (version_counter w + 1)].
    destruct (global_account w); split; reflexivity.
  - exists []. rewrite app_nil_r. unfold checkpoint, bind.
    rewrite rebuild_aggregate_eq. split; [reflexivity|simpl; lia].
Qed.

(** X6. The log is append-only and the counter counts the appends: whatever
    executes, undos and snapshots a client performs, on any stores, the log
    afterwards is the log from before followed by new events, and the
    counter has grown by exactly the number of those events. *)
Theorem log_is_append_only (operations : list operation) (w : World) :
  exists suffix,
    events (perform_all operations w) = events w ++ suffix /\
    version_counter (perform_all operations w)
    = version_counter w + Z.of_nat (length suffix).
Proof.
  revert w; induction operations as [|o os IH]; intros w; cbn [perform_all fold_left].
  - exists []. rewrite app_nil_r. split; [reflexivity|simpl; lia].
  - destruct (perform_extends o w) as (s1 & He1 & Hc1).
    destruct (IH (perform o w)) as (s2 & He2 & Hc2).
    exists (s1 ++ s2). unfold perform_all in *. rewrite He2, Hc2, He1, Hc1.
    split; [now rewrite app_assoc|].
    rewrite length_app, Nat2Z.inj_add. lia.
Qed.

Lemma numbered_appended e w :
  version_counter w = Z.of_nat (length (events w)) ->
  (forall i e', events w !! i = Some e' -> Event.version e' = Z.of_nat i + 1) ->
  Event.version e = version_counter w + 1 ->
  version_counter (appended e w) = Z.of_nat (length (events (appended e w))) /\
  (forall i e', events (appended e w) !! i = Some e' -> Event.version e' = Z.of_nat i + 1).
Proof.
  intros Hcount Hnum Hv. cbn [appended events version_counter set_events set_version_counter].
  split.
  - rewrite length_app, Nat2Z.inj_add. simpl. lia.
  - intros i e' Hi. apply lookup_app_Some in Hi as [Hi|[Hge Hi]]; [now apply Hnum|].
    apply list_lookup_singleton_Some in Hi as [Hi <-]. lia.
Qed.

Lemma numbered_perform o w :
  version_counter w = Z.of_nat (length (events w)) ->
  (forall i e, events w !! i = Some e -> Event.version e = Z.of_nat i + 1) ->
  version_counter (perform o w) = Z.of_nat (length (events (perform o w))) /\
  (forall i e, events (perform o w) !! i = Some e -> Event.version e = Z.of_nat i + 1).
Proof.
  intros Hcount Hnum. destruct o as [c|c|account]; cbn [perform].
  - destruct (execute_command_cases c w) as [-> | ->]; cbn [snd]; [|easy].
    apply (numbered_appended (forward_event c (version_counter w + 1)) w Hcount Hnum).
    apply forward_event_version.
  - rewrite undo_command_eq; cbv zeta.
    pose proof (numbered_appended (inverse_event c (version_counter w + 1)) w Hcount Hnum
                  (inverse_event_version _ _)) as H.
    destruct (global_account w); exact H.
  - unfold checkpoint, bind. rewrite rebuild_aggregate_eq. easy.
Qed.

(** X7. In stores that started out new, after any executes, undos and
    snapshots, the n-th event of the log carries version n and the counter
    equals the number of logged events: rejected commands and snapshots use
    up no version, and an undo uses one even when it raises. *)
Theorem log_versions_count_up
    (g : option AccountAggregate.t) (operations : list operation) :
  let w := perform_all operations (new_world g) in
  version_counter w = Z.of_nat (length (events w)) /\
  (forall i e, events w !! i = Some e -> Event.version e = Z.of_nat i + 1).
Proof.
  cbv zeta.
  assert (Hgen : forall w,
            version_counter w = Z.of_nat (length (events w)) ->
            (forall i e, events w !! i = Some e -> Event.version e = Z.of_nat i + 1) ->
            version_counter (perform_all operations w)
            = Z.of_nat (length (events (perform_all operations w))) /\
            (forall i e, events (perform_all operations w) !! i = Some e ->
                         Event.version e = Z.of_nat i + 1)).
  { induction operations as [|o os IH]; intros w Hcount Hnum; [easy|].
    destruct (numbered_perform o w Hcount Hnum) as [Hcount' Hnum'].
    exact (IH (perform o w) Hcount' Hnum'). }
  apply Hgen; [reflexivity|]. intros i e Hi. discriminate.
Qed.

Lemma submit_all_log commands w :
  events (submit_all commands w)
  = events w ++ imap (fun i c => forward_event c (version_counter w + 1 + Z.of_nat i))
                  (accepted commands w) /\
  version_counter (submit_all commands w)
  = version_counter w + Z.of_nat (length (accepted commands w)) /\
  snapshots (submit_all commands w) = snapshots w.
Proof.
  revert w; induction commands as [|c cs IH]; intros w; cbn [submit_all accepted].
  - cbn [imap length]. rewrite app_nil_r. repeat split. simpl; lia.
  - destruct (execute_command_cases c w) as [E|E]; rewrite E; cbn [snd].
    + destruct (IH (committed c w)) as (He & Hc & Hs). rewrite He, Hc, Hs.
      cbn [imap length]. split; [|split; [|reflexivity]].
      * cbn [committed refreshed appended events version_counter set_events
             set_accounts set_version_counter].
        rewrite <- app_assoc. cbn [app]. do 2 f_equal.
        -- f_equal. simpl. lia.
        -- apply imap_ext. intros i x _. simpl. f_equal. lia.
      * cbn [committed refreshed appended version_counter set_events
             set_accounts set_version_counter].
        rewrite Nat2Z.inj_succ. lia.
    + apply IH.
Qed.

(** X8. Starting from new stores, the log after a batch of commands holds
    exactly the events of the accepted commands, in submission order and
    numbered 1, 2, ...; the counter is the number of accepted commands and
    no snapshot exists. *)
Theorem submit_all_logs_accepted_commands
    (g : option AccountAggregate.t) (commands : list Command) :
  let w := submit_all commands (new_world g) in
  events w = imap (fun i c => forward_event c (Z.of_nat i + 1)) (accepted commands (new_world g)) /\
  version_counter w = Z.of_nat (length (accepted commands (new_world g))) /\
  snapshots w = ∅.
Proof.
  cbv zeta. destruct (submit_all_log commands (new_world g)) as (He & Hc & Hs).
  rewrite He, Hc, Hs. cbn [new_world events version_counter snapshots app].
  repeat split. apply imap_ext. intros i x _. simpl. f_equal. lia.
Qed.

(** ** Snapshots in stores written through the models *)

Lemma well_formed_perform_all operations w :
  well_formed w -> well_formed (perform_all operations w).
Proof.
  revert w; induction operations as [|o os IH]; intros w Hwf; [easy|].
  apply (IH (perform o w)). now apply well_formed_perform.
Qed.

(** X9. In stores that started out new, after any executes, undos and
    snapshots, every account rebuilds -- from its snapshot plus the events
    after it -- to the same aggregate, balance and version, as a replay of
    the whole log with all snapshots dropped, and that version is never
    above the counter. *)
Theorem rebuild_agrees_with_full_replay
    (g : option AccountAggregate.t) (operations : list operation) (account : Z) :
  let w := perform_all operations (new_world g) in
  exists a,
    rebuilt w account = Returned a /\
    rebuilt (without_snapshots w) account = Returned a /\
    AccountAggregate.account_id a = account /\
    0 <= AccountAggregate.version a <= version_counter w.
Proof.
  cbv zeta.
  pose proof (well_formed_perform_all operations _ (well_formed_new_world g)) as Hwf.
  set (w := perform_all operations (new_world g)) in *.
  destruct Hwf as (Hinc & Hle & Hdom & Hagree).
  exists (replay w account). unfold rebuilt. rewrite !rebuild_aggregate_eq; cbn [fst].
  split; [reflexivity|]. split; [now rewrite replay_without_snapshots, Hagree|].
  rewrite Hagree. split; [apply replay_from_zero_account_id|]. split.
  - now destruct (replay_from_zero_high_water account (events w) 0 Hinc) as (? & _).
  - apply replay_from_zero_version_bound; [easy| |easy]. now destruct Hdom.
Qed.

(** X10. In stores that started out new, after any executes, undos and
    snapshots, rebuilding an account and saving the snapshot changes
    nothing a reader can see except that snapshot: every account rebuilds
    to the same aggregate as before, and log, counter and entity store are
    untouched. *)
Theorem checkpoint_is_invisible
    (g : option AccountAggregate.t) (operations : list operation) (account : Z) :
  let w := perform_all operations (new_world g) in
  let w' := snd (checkpoint account w) in
  fst (checkpoint account w) = Returned tt /\
  (forall other, rebuilt w' other = rebuilt w other) /\
  events w' = events w /\
  version_counter w' = version_counter w /\
  accounts w' = accounts w /\
  (forall other, other <> account -> snapshots w' !! other = snapshots w !! other).
Proof.
  cbv zeta.
  pose proof (well_formed_perform_all operations _ (well_formed_new_world g)) as Hwf.
  set (w := perform_all operations (new_world g)) in *.
  split; [|split].
  - unfold checkpoint, bind. now rewrite rebuild_aggregate_eq.
  - intros other. now apply checkpoint_preserves_rebuilt.
  - unfold checkpoint, bind. rewrite rebuild_aggregate_eq.
    cbn [QueryModel.save_snapshot EventStore.save_snapshot modify snd
         events version_counter accounts snapshots set_snapshots].
    repeat split. intros other Hne.
    apply lookup_insert_ne.
    assert (AccountAggregate.account_id (replay w account) = account) as ->; [|easy].
    unfold replay. rewrite fold_apply_account_id. unfold baseline.
    now destruct (snapshots w !! account).
Qed.

(** X11. A saved snapshot is what the next rebuild returns as long as the
    log holds no event of that account above the snapshot's version:
    [save_snapshot] followed by [rebuild_aggregate] gives back the saved
    aggregate, whatever the log holds at or below that version. *)
Theorem save_snapshot_then_rebuild (a : AccountAggregate.t) (w : World) :
  Forall (fun e => Event.id (Event.data e) = AccountAggregate.account_id a ->
                   Event.version e <= AccountAggregate.version a) (events w) ->
  (let* _ := QueryModel.save_snapshot a in
   QueryModel.rebuild_aggregate (AccountAggregate.account_id a)) w
  = (Returned a, snd (QueryModel.save_snapshot a w)).
Proof.
  intros Hlog. unfold bind.
  cbn [QueryModel.save_snapshot EventStore.save_snapshot modify snd].
  rewrite rebuild_aggregate_eq. do 2 f_equal.
  unfold replay, baseline. cbn [events snapshots set_snapshots].
  rewrite lookup_insert_eq. cbn [Snapshot.balance Snapshot.version AccountAggregate.version].
  rewrite filter_none; [now destruct a|].
  eapply Forall_impl; [exact Hlog|]. simpl. intros e He.
  destruct (EventStore.selects _ _ e) eqn:Esel; [|easy].
  apply selects_spec in Esel as [Hid Hver]. specialize (He Hid). lia.
Qed.

Lemma save_snapshot_then_rebuild_witness :
  let w := submit_all [DepositCommand 1 150; DepositCommand 2 7; WithdrawalCommand 1 50]
             (new_world None) in
  let a := AccountAggregate.mk 1 999 3 in
  Forall (fun e => Event.id (Event.data e) = AccountAggregate.account_id a ->
                   Event.version e <= AccountAggregate.version a) (events w) /\
  (let* _ := QueryModel.save_snapshot a in
   QueryModel.rebuild_aggregate (AccountAggregate.account_id a)) w
  = (Returned a, snd (QueryModel.save_snapshot a w)).
Proof.
  intros w a.
  assert (Hlog : Forall (fun e => Event.id (Event.data e) = AccountAggregate.account_id a ->
                                  Event.version e <= AccountAggregate.version a) (events w)).
  { repeat constructor; simpl; intros; lia. }
  split; [exact Hlog|].
  exact (save_snapshot_then_rebuild a w Hlog).
Defined.

(** X12. The balance [rebuild_aggregate] returns is the snapshot's balance
    (0 without a snapshot) plus the amounts of the Deposit events and minus
    the amounts of the Withdrawal events that [get_events] returns for the
    account after the snapshot's version; events of any other type count
    for nothing. *)
Theorem rebuilt_balance_is_signed_sum (account : Z) (w : World) :
  let base := match snapshots w !! account with
              | Some s => (Snapshot.balance s, Snapshot.version s)
              | None => (0, 0)
              end in
  exists selected,
    EventStore.get_events account (snd base) w = (Returned selected, w) /\
    rebuilt_balance w account
    = Some (fst base
            + fold_right Z.add 0
                (map (fun e =>
                        if String.eqb (Event.event_type e) "Deposit"
                        then Event.amount (Event.data e)
                        else if String.eqb (Event.event_type e) "Withdrawal"
                             then - Event.amount (Event.data e)
                             else 0) selected)).
Proof.
  cbv zeta. eexists; split; [reflexivity|].
  rewrite rebuilt_balance_eq. f_equal. unfold replay.
  rewrite fold_apply_balance. unfold total, signed, baseline.
  destruct (snapshots w !! account); reflexivity.
Qed.

(** ** Transfers *)

(** X13. A transfer the source account can cover returns normally, records
    the withdrawal and the deposit (in that order) after whatever the saga
    had recorded, uses two versions, and changes rebuilt balances by
    exactly the amount: minus the amount for the source, plus the amount
    for the target, nothing for any other account (and nothing at all when
    source and target are the same account). *)
Theorem start_transfer_moves_amount (from_id to_id n b : Z) (s : TransferSaga.t) :
  dominated (TransferSaga.command_model s) ->
  rebuilt_balance (TransferSaga.command_model s) from_id = Some b ->
  n <= b ->
  exists s',
    TransferSaga.start_transfer from_id to_id n s = (Returned tt, s') /\
    TransferSaga.successful_commands s'
    = TransferSaga.successful_commands s
        ++ [WithdrawalCommand from_id n; DepositCommand to_id n] /\
    version_counter (TransferSaga.command_model s')
    = version_counter (TransferSaga.command_model s) + 2 /\
    forall account ba,
      rebuilt_balance (TransferSaga.command_model s) account = Some ba ->
      rebuilt_balance (TransferSaga.command_model s') account
      = Some (ba - (if from_id =? account then n else 0)
                 + (if to_id =? account then n else 0)).
Proof.
  intros Hdom Hb Hle. rewrite rebuilt_balance_eq in Hb. injection Hb as Hb.
  rewrite start_transfer_eq; cbv zeta.
  destruct (Z.geb_spec (AccountAggregate.balance
                          (replay (TransferSaga.command_model s) from_id)) n) as [_|Hlt];
    [|lia].
  eexists; split; [reflexivity|].
  cbn [TransferSaga.successful_commands TransferSaga.command_model].
  split; [now rewrite <- app_assoc|]. split.
  - cbn [committed refreshed appended version_counter set_events set_accounts
         set_version_counter]. lia.
  - intros account ba Hba. rewrite rebuilt_balance_eq in Hba. injection Hba as Hba.
    rewrite rebuilt_balance_eq. f_equal.
    rewrite balance_executed by now apply dominated_committed.
    rewrite balance_executed by easy.
    unfold effect; cbn [account_id is_withdrawal amount].
    destruct (from_id =? account), (to_id =? account); lia.
Qed.

Lemma start_transfer_moves_amount_witness :
  let w := submit_all [DepositCommand 1 100; DepositCommand 2 50] (new_world None) in
  let s := TransferSaga.init w in
  dominated (TransferSaga.command_model s) /\
  rebuilt_balance (TransferSaga.command_model s) 1 = Some 100 /\
  50 <= 100 /\
  exists s',
    TransferSaga.start_transfer 1 2 50 s = (Returned tt, s') /\
    TransferSaga.successful_commands s'
    = TransferSaga.successful_commands s ++ [WithdrawalCommand 1 50; DepositCommand 2 50] /\
    version_counter (TransferSaga.command_model s')
    = version_counter (TransferSaga.command_model s) + 2 /\
    forall account ba,
      rebuilt_balance (TransferSaga.command_model s) account = Some ba ->
      rebuilt_balance (TransferSaga.command_model s') account
      = Some (ba - (if 1 =? account then 50 else 0) + (if 2 =? account then 50 else 0)).
Proof.
  intros w s.
  assert (Hdom : dominated (TransferSaga.command_model s))
    by (split; [simpl; lia | apply map_Forall_empty]).
  split; [exact Hdom|]. split; [reflexivity|]. split; [lia|].
  apply (start_transfer_moves_amount 1 2 50 100 s Hdom); [reflexivity | lia].
Defined.

(** X14. A transfer the source account cannot cover, on a saga that has
    recorded nothing, raises the withdrawal's [InsufficientBalanceError] and
    leaves the saga and every store exactly as they were: no version used,
    no event logged, no entity written. *)
Theorem start_transfer_rejected_changes_nothing (from_id to_id n b : Z) (w : World) :
  rebuilt_balance w from_id = Some b ->
  b < n ->
  TransferSaga.start_transfer from_id to_id n (TransferSaga.init w)
  = (Raised (InsufficientBalanceError n), TransferSaga.init w).
Proof.
  intros Hb Hlt. rewrite rebuilt_balance_eq in Hb. injection Hb as Hb.
  rewrite start_transfer_new_saga.
  destruct (Z.geb_spec (AccountAggregate.balance (replay w from_id)) n); [lia|reflexivity].
Qed.

Lemma start_transfer_rejected_changes_nothing_witness :
  let w := submit_all [DepositCommand 1 50; DepositCommand 2 50] (new_world None) in
  rebuilt_balance w 1 = Some 50 /\
  50 < 100 /\
  TransferSaga.start_transfer 1 2 100 (TransferSaga.init w)
  = (Raised (InsufficientBalanceError 100), TransferSaga.init w).
Proof.
  intros w. split; [reflexivity|]. split; [lia|].
  apply (start_transfer_rejected_changes_nothing 1 2 100 50 w); [reflexivity | lia].
Defined.

(** ** Compensation *)

Lemma undo_all_bound_eq commands s g :
  global_account (TransferSaga.command_model s) = Some g ->
  for_each commands
    (fun command => TransferSaga.on_command_model (CommandModel.undo_command command)) s
  = (Returned tt,
     TransferSaga.mk (TransferSaga.successful_commands s)
       (perform_all (map Undo commands) (TransferSaga.command_model s))).
Proof.
  revert s; induction commands as [|c cs IH]; intros s Hg.
  - now destruct s.
  - cbn [for_each map perform_all fold_left perform]. unfold bind.
    rewrite on_command_model_eq. 
    assert (Hret : fst (CommandModel.undo_command c (TransferSaga.command_model s)) = Returned tt)
      by (rewrite undo_command_eq; cbv zeta; now rewrite Hg).
    rewrite Hret. rewrite IH; [reflexivity|].
    cbn [TransferSaga.command_model]. rewrite undo_command_eq; cbv zeta. now rewrite Hg.
Qed.

Lemma undone_log c w :
  events (snd (CommandModel.undo_command c w))
  = events w ++ [inverse_event c (version_counter w + 1)] /\
  version_counter (snd (CommandModel.undo_command c w)) = version_counter w + 1 /\
  snapshots (snd (CommandModel.undo_command c w)) = snapshots w.
Proof.
  rewrite undo_command_eq; cbv zeta. destruct (global_account w); repeat split.
Qed.

Lemma undo_all_log commands w :
  events (perform_all (map Undo commands) w)
  = events w ++ imap (fun i c => inverse_event c (version_counter w + 1 + Z.of_nat i)) commands /\
  version_counter (perform_all (map Undo commands) w)
  = version_counter w + Z.of_nat (length commands) /\
  snapshots (perform_all (map Undo commands) w) = snapshots w.
Proof.
  revert w; induction commands as [|c cs IH]; intros w;
    cbn [map perform_all fold_left perform].
  - cbn [imap length]. rewrite app_nil_r. repeat split. simpl; lia.
  - destruct (IH (snd (CommandModel.undo_command c w))) as (He & Hc & Hs).
    destruct (undone_log c w) as (He1 & Hc1 & Hs1).
    unfold perform_all in *. rewrite He, Hc, Hs, He1, Hc1, Hs1.
    cbn [imap length].
    split; [|split; [rewrite Nat2Z.inj_succ; lia | reflexivity]].
    rewrite <- app_assoc. cbn [app]. do 2 f_equal.
    + f_equal. simpl. lia.
    + apply imap_ext. intros i x _. simpl. f_equal. lia.
Qed.

(** X15. With the name [account] bound at module level, compensation
    returns, empties the saga's record and appends one compensating event
    per recorded command, last recorded first, under consecutive new
    versions; snapshots are not touched. *)
Theorem compensate_transfer_undoes_in_reverse (s : TransferSaga.t) (g : AccountAggregate.t) :
  global_account (TransferSaga.command_model s) = Some g ->
  exists w',
    TransferSaga.compensate_transfer s = (Returned tt, TransferSaga.mk [] w') /\
    events w'
    = events (TransferSaga.command_model s)
        ++ imap (fun i c => inverse_event c
                              (version_counter (TransferSaga.command_model s) + 1 + Z.of_nat i))
             (rev (TransferSaga.successful_commands s)) /\
    version_counter w'
    = version_counter (TransferSaga.command_model s)
      + Z.of_nat (length (TransferSaga.successful_commands s)) /\
    snapshots w' = snapshots (TransferSaga.command_model s).
Proof.
  intros Hg.
  exists (perform_all (map Undo (rev (TransferSaga.successful_commands s)))
            (TransferSaga.command_model s)).
  split.
  - unfold TransferSaga.compensate_transfer, bind, gets, modify.
    now rewrite (undo_all_bound_eq _ s g Hg).
  - destruct (undo_all_log (rev (TransferSaga.successful_commands s))
                (TransferSaga.command_model s)) as (He & Hc & Hs).
    rewrite He, Hc, Hs, length_rev. repeat split.
Qed.

Lemma compensate_transfer_undoes_in_reverse_witness :
  let g := AccountAggregate.mk 1 100 1 in
  let w := submit_all [DepositCommand 1 100] (new_world (Some g)) in
  let s := snd (TransferSaga.start_transfer 1 2 30 (TransferSaga.init w)) in
  global_account (TransferSaga.command_model s) = Some g /\
  exists w',
    TransferSaga.compensate_transfer s = (Returned tt, TransferSaga.mk [] w') /\
    events w'
    = events (TransferSaga.command_model s)
        ++ imap (fun i c => inverse_event c
                              (version_counter (TransferSaga.command_model s) + 1 + Z.of_nat i))
             (rev (TransferSaga.successful_commands s)) /\
    version_counter w'
    = version_counter (TransferSaga.command_model s)
      + Z.of_nat (length (TransferSaga.successful_commands s)) /\
    snapshots w' = snapshots (TransferSaga.command_model s).
Proof.
  intros g w s.
  assert (Hg : global_account (TransferSaga.command_model s) = Some g) by reflexivity.
  split; [exact Hg|].
  exact (compensate_transfer_undoes_in_reverse s g Hg).
Defined.

Lemma deposited_app account l1 l2 :
  deposited account (l1 ++ l2) = deposited account l1 + deposited account l2.
Proof.
  unfold deposited. induction l1 as [|c l1 IH]; cbn [app map fold_right]; [lia|].
  rewrite IH. lia.
Qed.

Lemma withdrawn_app account l1 l2 :
  withdrawn account (l1 ++ l2) = withdrawn account l1 + withdrawn account l2.
Proof.
  unfold withdrawn. induction l1 as [|c l1 IH]; cbn [app map fold_right]; [lia|].
  rewrite IH. lia.
Qed.

Lemma effect_deposited_withdrawn account command :
  effect account command = deposited account [command] - withdrawn account [command].
Proof.
  unfold effect, deposited, withdrawn.
  destruct command as [a n|a n]; cbn [account_id is_withdrawal amount map fold_right];
    destruct (a =? account); lia.
Qed.

Lemma balance_undo_all commands w account :
  dominated w ->
  dominated (perform_all (map Undo commands) w) /\
  AccountAggregate.balance (replay (perform_all (map Undo commands) w) account)
  = AccountAggregate.balance (replay w account)
    - deposited account commands + withdrawn account commands.
Proof.
  revert w; induction commands as [|c cs IH]; intros w Hdom;
    cbn [map perform_all fold_left perform].
  - split; [easy|]. unfold deposited, withdrawn; simpl. lia.
  - destruct (IH _ (dominated_undone c w Hdom)) as [Hdom' Hbal].
    unfold perform_all in *. split; [easy|].
    rewrite Hbal, balance_undone by easy.
    change (c :: cs) with ([c] ++ cs).
    rewrite deposited_app, withdrawn_app, effect_deposited_withdrawn. lia.
Qed.

Lemma deposited_rev account l : deposited account (rev l) = deposited account l.
Proof.
  induction l as [|c l IH]; [easy|]. cbn [rev].
  change (c :: l) with ([c] ++ l). rewrite !deposited_app, IH. lia.
Qed.

Lemma withdrawn_rev account l : withdrawn account (rev l) = withdrawn account l.
Proof.
  induction l as [|c l IH]; [easy|]. cbn [rev].
  change (c :: l) with ([c] ++ l). rewrite !withdrawn_app, IH. lia.
Qed.

(** X16. With the name [account] bound at module level, a transfer the
    source account cannot cover raises the withdrawal's
    [InsufficientBalanceError] after undoing every command the saga object
    has recorded, those of its earlier, completed transfers included: the
    record ends up empty and each account rebuilds to its balance minus the
    recorded deposits plus the recorded withdrawals. *)
Theorem failed_transfer_undoes_recorded_commands
    (from_id to_id n b : Z) (s : TransferSaga.t) (g : AccountAggregate.t) :
  global_account (TransferSaga.command_model s) = Some g ->
  dominated (TransferSaga.command_model s) ->
  rebuilt_balance (TransferSaga.command_model s) from_id = Some b ->
  b < n ->
  exists w',
    TransferSaga.start_transfer from_id to_id n s
    = (Raised (InsufficientBalanceError n), TransferSaga.mk [] w') /\
    forall account ba,
      rebuilt_balance (TransferSaga.command_model s) account = Some ba ->
      rebuilt_balance w' account
      = Some (ba - deposited account (TransferSaga.successful_commands s)
                 + withdrawn account (TransferSaga.successful_commands s)).
Proof.
  intros Hg Hdom Hb Hlt. rewrite rebuilt_balance_eq in Hb. injection Hb as Hb.
  rewrite start_transfer_eq; cbv zeta.
  destruct (Z.geb_spec (AccountAggregate.balance
                          (replay (TransferSaga.command_model s) from_id)) n); [lia|].
  exists (perform_all (map Undo (rev (TransferSaga.successful_commands s)))
            (TransferSaga.command_model s)).
  split.
  - unfold TransferSaga.compensate_transfer, bind, gets, modify, raise.
    now rewrite (undo_all_bound_eq _ s g Hg).
  - intros account ba Hba. rewrite rebuilt_balance_eq in Hba. injection Hba as Hba.
    rewrite rebuilt_balance_eq. f_equal.
    destruct (balance_undo_all (rev (TransferSaga.successful_commands s))
                (TransferSaga.command_model s) account Hdom) as [_ ->].
    rewrite deposited_rev, withdrawn_rev. lia.
Qed.

Lemma failed_transfer_undoes_recorded_commands_witness :
  let g := AccountAggregate.mk 1 100 1 in
  let w := submit_all [DepositCommand 1 100] (new_world (Some g)) in
  let s := snd (TransferSaga.start_transfer 1 2 60 (TransferSaga.init w)) in
  global_account (TransferSaga.command_model s) = Some g /\
  dominated (TransferSaga.command_model s) /\
  rebuilt_balance (TransferSaga.command_model s) 1 = Some 40 /\
  40 < 60 /\
  exists w',
    TransferSaga.start_transfer 1 2 60 s
    = (Raised (InsufficientBalanceError 60), TransferSaga.mk [] w') /\
    forall account ba,
      rebuilt_balance (TransferSaga.command_model s) account = Some ba ->
      rebuilt_balance w' account
      = Some (ba - deposited account (TransferSaga.successful_commands s)
                 + withdrawn account (TransferSaga.successful_commands s)).
Proof.
  intros g w s.
  assert (Hg : global_account (TransferSaga.command_model s) = Some g) by reflexivity.
  assert (Hdom : dominated (TransferSaga.command_model s))
    by (split; [vm_compute; discriminate | apply map_Forall_empty]).
  split; [exact Hg|]. split; [exact Hdom|]. split; [reflexivity|]. split; [lia|].
  apply (failed_transfer_undoes_recorded_commands 1 2 60 40 s g Hg Hdom); [reflexivity | lia].
Defined.

(** ** The entity store *)

Lemma entities_backed_appended e w :
  entities_backed w -> entities_backed (appended e w).
Proof.
  intros Hw account entity Hlook. destruct (Hw account entity Hlook) as (Hid & Hle & Hex).
  cbn [appended events version_counter set_events set_version_counter].
  split; [easy|]. split; [lia|]. apply Exists_app. now left.
Qed.

Lemma entities_backed_refreshed e b w :
  entities_backed w ->
  Event.version e = version_counter w + 1 ->
  entities_backed (refreshed (Event.id (Event.data e)) b (appended e w)).
Proof.
  intros Hw Hv account entity.
  unfold refreshed. cbn [accounts set_accounts events version_counter].
  destruct (Z.eq_dec (Event.id (Event.data e)) account) as [<-|Hne].
  - rewrite lookup_insert_eq. intros [= <-]. cbn [AccountEntity.account_id AccountEntity.version].
    cbn [appended events version_counter set_events set_version_counter].
    split; [easy|]. split; [lia|].
    apply Exists_app. right. constructor. split; [easy|]. simpl. lia.
  - rewrite lookup_insert_ne by easy. intros Hlook.
    apply (entities_backed_appended e w Hw account entity Hlook).
Qed.

Lemma entities_backed_perform o w : entities_backed w -> entities_backed (perform o w).
Proof.
  intros Hw. destruct o as [c|c|account]; cbn [perform].
  - destruct (execute_command_cases c w) as [-> | ->]; cbn [snd]; [|easy].
    unfold committed. rewrite <- (forward_event_id c (version_counter w + 1)) at 1.
    apply entities_backed_refreshed; [easy|apply forward_event_version].
  - rewrite undo_command_eq; cbv zeta. destruct (global_account w); cbn [snd].
    + rewrite <- (inverse_event_id c (version_counter w + 1)) at 1.
      apply entities_backed_refreshed; [easy|apply inverse_event_version].
    + now apply entities_backed_appended.
  - unfold checkpoint, bind. rewrite rebuild_aggregate_eq. exact Hw.
Qed.

(** X17. In stores that started out new, after any executes, undos and
    snapshots, every entity [query_entity] can return is filed under its
    own account id, and its version is the version of an event logged for
    that account and is not above the counter; an account without logged
    events has no entity. *)
Theorem entity_store_is_backed_by_log
    (g : option AccountAggregate.t) (operations : list operation)
    (account : Z) (entity : AccountEntity.t) :
  let w := perform_all operations (new_world g) in
  EntityStore.query_entity account w = (Returned (Some entity), w) ->
  AccountEntity.account_id entity = account /\
  AccountEntity.version entity <= version_counter w /\
  exists e, e ∈ events w /\
            Event.id (Event.data e) = account /\
            Event.version e = AccountEntity.version entity.
Proof.
  cbv zeta.
  assert (Hgen : forall w, entities_backed w -> entities_backed (perform_all operations w)).
  { induction operations as [|o os IH]; intros w Hw; [easy|].
    apply (IH (perform o w)). now apply entities_backed_perform. }
  intros Hq.
  assert (Hnew : entities_backed (new_world g)).
  { intros a e' Hlook. cbn in Hlook. now rewrite lookup_empty in Hlook. }
  unfold EntityStore.query_entity, gets in Hq. injection Hq as Hq.
  destruct (Hgen _ Hnew account entity Hq) as (Hid & Hle & Hex).
  split; [easy|]. split; [easy|].
  apply Exists_exists in Hex as (e & Hin & He1 & He2). now exists e.
Qed.

Lemma entity_store_is_backed_by_log_witness :
  let operations := [Execute (DepositCommand 1 150); Checkpoint 1;
                     Execute (WithdrawalCommand 1 50)] in
  let w := perform_all operations (new_world None) in
  let entity := AccountEntity.mk 1 100 2 in
  EntityStore.query_entity 1 w = (Returned (Some entity), w) /\
  AccountEntity.account_id entity = 1 /\
  AccountEntity.version entity <= version_counter w /\
  exists e, e ∈ events w /\
            Event.id (Event.data e) = 1 /\
            Event.version e = AccountEntity.version entity.
Proof.
  intros operations w entity.
  assert (Hq : EntityStore.query_entity 1 w = (Returned (Some entity), w)) by reflexivity.
  split; [exact Hq|].
  exact (entity_store_is_backed_by_log None operations 1 entity Hq).
Defined.
